(** * tree.py: the ignore matcher and the recursive tree walk

    A shallow embedding of [src/tree.py]: [is_ignored] (the pattern
    matcher) and [build_tree] (the walk that renders the ASCII tree and
    accumulates the three module-level counters), followed by the
    properties of the specification that concern them.

    Modelling conventions.
    - A Python [str] is a [string]: a sequence of bytes, the UTF-8 encoding
      of the text.  Comparing such strings byte by byte agrees with
      Python's comparison by code point.  [str.lower], which follows the
      Unicode case mapping, is not spelled out: the scanner is written
      over an arbitrary [lower], and everything proved of it holds for
      [str.lower].  The wildcard [?] and a character set take one byte,
      which is one character in an ASCII name.
    - A [pathlib.Path] is the list of its parts.
    - A Python [int] is a [Z].
    - The module-level globals [file_count], [dir_count], [line_count] and
      the console are threaded explicitly; a computation is a function from
      the globals to an outcome (a value or a raised exception) and the
      globals it leaves behind.
    - The file system is a finite tree of nodes, observed through the
      operations the program calls ([iterdir], [is_symlink], [is_file],
      [is_dir], [open]), and it does not change during a run.  The order
      of a directory's children is the order in which [iterdir] yields
      them.  Regular files, directories and symbolic links are modelled;
      devices, sockets and pipes are not. *)

From Stdlib Require Import List String Ascii Bool Arith ZArith Lia.
From Stdlib Require Import Sorting.Sorted Sorting.Permutation.
From Stdlib Require Import Init.Byte DecimalString.
Import ListNotations.

Local Open Scope string_scope.
Local Open Scope list_scope.

(** ** Exceptions and outcomes *)

Inductive exn : Type :=
| PermissionError
| FileNotFoundError
| NotADirectoryError
| IsADirectoryError
| ValueError
| OSError.

Definition is_PermissionError (e : exn) : bool :=
  match e with PermissionError => true | _ => false end.

Inductive result (A : Type) : Type :=
| Ok (a : A)
| Raise (e : exn).
Arguments Ok {A} a.
Arguments Raise {A} e.

(** ** Strings *)

Definition chars (s : string) : list ascii := list_ascii_of_string s.

(** [s.startswith(p)] *)
Definition startswith (s p : string) : bool := String.prefix p s.

(** [s.endswith(suffix)] *)
Definition endswith (s suffix : string) : bool :=
  Nat.leb (String.length suffix) (String.length s) &&
  String.eqb (substring (String.length s - String.length suffix)
                        (String.length suffix) s) suffix.

(** [s[:-1]] *)
Definition drop_last (s : string) : string :=
  substring 0 (String.length s - 1) s.

(** [a <= b] on [str]: lexicographic on the character codes *)
Fixpoint str_leb (a b : string) : bool :=
  match a, b with
  | EmptyString, _ => true
  | String _ _, EmptyString => false
  | String x a', String y b' =>
      if Nat.ltb (nat_of_ascii x) (nat_of_ascii y) then true
      else if Nat.ltb (nat_of_ascii y) (nat_of_ascii x) then false
      else str_leb a' b'
  end.

(** ** pathlib *)

Definition Path : Type := list string.

(** [path / name] *)
Definition joinpath (path : Path) (name : string) : Path := path ++ [name].

(** [path.name]: the last part, and the empty string for a path that is
    only its anchor *)
Definition path_name (path : Path) : string :=
  let n := last path "" in
  if String.eqb n "/" then "" else n.

(** [path.relative_to(root)]: the parts of [path] after those of [root];
    [ValueError] when [root] is not a prefix of [path]. *)
Fixpoint relative_to (path root : Path) {struct root} : result Path :=
  match root with
  | [] => Ok path
  | r :: root' =>
      match path with
      | [] => Raise ValueError
      | p :: path' =>
          if String.eqb p r then relative_to path' root' else Raise ValueError
      end
  end.

(** [p.as_posix()] of a relative path: the parts joined by [/]; the empty
    relative path prints as a dot. *)
Definition as_posix (p : Path) : string :=
  match p with
  | [] => "."
  | _ => String.concat "/" p
  end.

(** ** fnmatch

    [fnmatch.fnmatch(name, pat)] on a POSIX host: [os.path.normcase] is the
    identity, the pattern is translated to a regular expression by
    [fnmatch.translate] and the whole of [name] must match it, with the
    DOTALL flag.  The translation is kept as a list of tokens. *)

Inductive token : Type :=
| STAR                          (* [*]: any run of characters, [.*] *)
| QMARK                         (* [?]: any one character, [.] *)
| LIT (c : ascii)               (* any other character, [re.escape(c)] *)
| SET (stuff : list ascii).     (* [[stuff]]: a character set *)

(** first index of [c] in [s], [s.find(c)] *)
Fixpoint find_char (c : ascii) (s : list ascii) : option nat :=
  match s with
  | [] => None
  | x :: s' =>
      if Ascii.eqb x c then Some 0
      else match find_char c s' with
           | Some k => Some (S k)
           | None => None
           end
  end.

(** The scan for the closing bracket, on the text [r] that follows the
    opening one ([r = pat[i:]], the result is [j - i]): a leading [!] and
    then a leading bracket are stepped over, and the next closing bracket
    ends the set. *)
Definition bracket_end (r : list ascii) : option nat :=
  let j := match r with "!"%char :: _ => 1 | _ => 0 end in
  let j := match nth_error r j with Some "]"%char => S j | _ => j end in
  match find_char "]"%char (skipn j r) with
  | Some k => Some (j + k)
  | None => None
  end.

(** ** The file system

    A regular file carries its bytes, or the exception that opening or
    reading it raises.  A directory carries its children in the order
    [iterdir] yields them, and the exception, if any, that listing it
    raises.  A symbolic link carries the node it resolves to, if any (none
    for a dangling or looping link); a link into an ancestor directory
    resolves to an unfolding of that directory. *)

Inductive file_data : Type :=
| Bytes (content : list byte)
| Unreadable (e : exn).

#[warnings="-register-all"]
Inductive node : Type :=
| File (name : string) (data : file_data)
| Dir (name : string) (listing : option exn) (children : list node)
| Symlink (name : string) (target : option node).

(** [p.name] *)
Definition name (p : node) : string :=
  match p with
  | File n _ => n
  | Dir n _ _ => n
  | Symlink n _ => n
  end.

(** [p.is_symlink()] *)
Definition is_symlink (p : node) : bool :=
  match p with
  | Symlink _ _ => true
  | _ => false
  end.

(** [p.is_file()]: follows links; false when the link resolves to nothing *)
Fixpoint is_file (p : node) : bool :=
  match p with
  | File _ _ => true
  | Dir _ _ _ => false
  | Symlink _ (Some t) => is_file t
  | Symlink _ None => false
  end.

(** [p.is_dir()]: follows links; false when the link resolves to nothing *)
Fixpoint is_dir (p : node) : bool :=
  match p with
  | File _ _ => false
  | Dir _ _ _ => true
  | Symlink _ (Some t) => is_dir t
  | Symlink _ None => false
  end.

(** *** Reading a file as text

    [open("r", encoding="utf-8", errors="ignore")]: bytes that do not decode
    are dropped, and the text is read with universal newlines. *)

Definition is_continuation (b : byte) : bool :=
  (128 <=? Byte.to_N b)%N && (Byte.to_N b <=? 191)%N.

(** the second byte of a three- or four-byte sequence is further restricted
    after the lead bytes E0, ED, F0 and F4 *)
Definition second_ok (lead : N) (b : byte) : bool :=
  let lo := if (lead =? 224)%N then 160%N
            else if (lead =? 240)%N then 144%N else 128%N in
  let hi := if (lead =? 237)%N then 159%N
            else if (lead =? 244)%N then 143%N else 191%N in
  (lo <=? Byte.to_N b)%N && (Byte.to_N b <=? hi)%N.

Definition low6 (b : byte) : N := (Byte.to_N b - 128)%N.

(** [bytes.decode("utf-8", errors="ignore")] as code points: a well-formed
    sequence gives its code point; otherwise the offending lead byte is
    dropped and decoding resumes at the next byte. *)
Fixpoint decode_utf8_ignore (bs : list byte) : list N :=
  match bs with
  | [] => []
  | b0 :: r0 =>
      let c0 := Byte.to_N b0 in
      if (c0 <? 128)%N then c0 :: decode_utf8_ignore r0
      else if (194 <=? c0)%N && (c0 <=? 223)%N then
        match r0 with
        | b1 :: r1 =>
            if is_continuation b1
            then ((c0 - 192) * 64 + low6 b1)%N :: decode_utf8_ignore r1
            else decode_utf8_ignore r0
        | _ => decode_utf8_ignore r0
        end
      else if (224 <=? c0)%N && (c0 <=? 239)%N then
        match r0 with
        | b1 :: b2 :: r2 =>
            if second_ok c0 b1 && is_continuation b2
            then ((c0 - 224) * 4096 + low6 b1 * 64 + low6 b2)%N
                 :: decode_utf8_ignore r2
            else decode_utf8_ignore r0
        | _ => decode_utf8_ignore r0
        end
      else if (240 <=? c0)%N && (c0 <=? 244)%N then
        match r0 with
        | b1 :: b2 :: b3 :: r3 =>
            if second_ok c0 b1 && is_continuation b2 && is_continuation b3
            then ((c0 - 240) * 262144 + low6 b1 * 4096 + low6 b2 * 64
                  + low6 b3)%N :: decode_utf8_ignore r3
            else decode_utf8_ignore r0
        | _ => decode_utf8_ignore r0
        end
      else decode_utf8_ignore r0
  end.

(** the bytes are well-formed UTF-8: a strict decoder accepts them *)
Fixpoint utf8_valid (bs : list byte) : bool :=
  match bs with
  | [] => true
  | b0 :: r0 =>
      let c0 := Byte.to_N b0 in
      if (c0 <? 128)%N then utf8_valid r0
      else if (194 <=? c0)%N && (c0 <=? 223)%N then
        match r0 with
        | b1 :: r1 => is_continuation b1 && utf8_valid r1
        | _ => false
        end
      else if (224 <=? c0)%N && (c0 <=? 239)%N then
        match r0 with
        | b1 :: b2 :: r2 =>
            second_ok c0 b1 && is_continuation b2 && utf8_valid r2
        | _ => false
        end
      else if (240 <=? c0)%N && (c0 <=? 244)%N then
        match r0 with
        | b1 :: b2 :: b3 :: r3 =>
            second_ok c0 b1 && is_continuation b2 && is_continuation b3
            && utf8_valid r3
        | _ => false
        end
      else false
  end.

(** [sum(1 for _ in f)] on the decoded text: a line ends at a line feed, at
    a carriage return, or at the pair of them; what follows the last line
    end counts as a line when it is not empty.  [pending] says that the
    current line already has a character. *)
Fixpoint count_lines_from (pending : bool) (text : list N) : Z :=
  match text with
  | [] => if pending then 1%Z else 0%Z
  | c :: text' =>
      if (c =? 10)%N then (1 + count_lines_from false text')%Z
      else if (c =? 13)%N then
        match text' with
        | c' :: text'' =>
            if (c' =? 10)%N then (1 + count_lines_from false text'')%Z
            else (1 + count_lines_from false text')%Z
        | [] => 1%Z
        end
      else count_lines_from true text'
  end.

Definition count_lines (content : list byte) : Z :=
  count_lines_from false (decode_utf8_ignore content).

(** The [with entry.open(...) as f: sum(1 for _ in f)] of the walk: the
    number of lines, or the exception that opening or reading raises. *)
Fixpoint read_line_count (entry : node) : result Z :=
  match entry with
  | File _ (Bytes content) => Ok (count_lines content)
  | File _ (Unreadable e) => Raise e
  | Dir _ _ _ => Raise IsADirectoryError
  | Symlink _ (Some t) => read_line_count t
  | Symlink _ None => Raise FileNotFoundError
  end.

(** ** Sorting

    [sorted(..., key=lambda p: (p.is_file(), p.name.lower()))]: the keys
    are pairs, compared on the first component ([False < True]) and, when
    it is equal, on the second; [sorted] is stable, and is written here as
    the stable insertion sort. *)

Definition key_ltb (a b : bool * string) : bool :=
  if Bool.eqb (fst a) (fst b) then negb (str_leb (snd b) (snd a))
  else negb (fst a) && fst b.


Section Sorted.
Context {A : Type} (key : A -> bool * string).

Fixpoint insert_by (x : A) (l : list A) : list A :=
  match l with
  | [] => [x]
  | y :: l' =>
      if key_ltb (key y) (key x) then y :: insert_by x l' else x :: y :: l'
  end.

Fixpoint sorted (l : list A) : list A :=
  match l with
  | [] => []
  | x :: l' => insert_by x (sorted l')
  end.

End Sorted.

(** ** The globals and the computations over them *)

Inductive message : Type :=
| Starting (patterns : nat) (root : Path)
| Scanning (files dirs lines : Z)
| Complete (files dirs lines : Z) (output_file : Path).

Record globals : Type := mkGlobals {
  file_count : Z;
  dir_count : Z;
  line_count : Z;
  console : list message
}.

(** the state of a fresh interpreter, after lines 67 to 69 *)
Definition initial : globals := mkGlobals 0 0 0 [].

Definition comp (A : Type) : Type := globals -> result A * globals.

Definition ret {A} (a : A) : comp A := fun g => (Ok a, g).
Definition raise {A} (e : exn) : comp A := fun g => (Raise e, g).
Definition bind {A B} (c : comp A) (k : A -> comp B) : comp B :=
  fun g =>
    match c g with
    | (Ok a, g') => k a g'
    | (Raise e, g') => (Raise e, g')
    end.

Notation "x <- c ;; k" := (bind c (fun x => k))
  (at level 61, c at next level, right associativity).
Notation "c ;;; k" := (bind c (fun _ => k))
  (at level 61, right associativity).

(** [file_count += 1] *)
Definition incr_file_count : comp unit :=
  fun g => (Ok tt, mkGlobals (file_count g + 1) (dir_count g) (line_count g)
                             (console g)).

(** [dir_count += 1] *)
Definition incr_dir_count : comp unit :=
  fun g => (Ok tt, mkGlobals (file_count g) (dir_count g + 1) (line_count g)
                             (console g)).

(** [line_count += n] *)
Definition add_line_count (n : Z) : comp unit :=
  fun g => (Ok tt, mkGlobals (file_count g) (dir_count g) (line_count g + n)
                             (console g)).

(** [print(...)] *)
Definition print (m : message) : comp unit :=
  fun g => (Ok tt, mkGlobals (file_count g) (dir_count g) (line_count g)
                             (console g ++ [m])).

(** lines 98 to 102: the line count is added when the file reads to its
    end; any exception is passed over *)
Definition count_file (entry : node) : comp unit :=
  match read_line_count entry with
  | Ok n => add_line_count n
  | Raise _ => ret tt
  end.

(** lines 104 to 106: live heartbeat every 200 files *)
Definition heartbeat : comp unit :=
  fun g =>
    if (file_count g mod 200 =? 0)%Z && (0 <? file_count g)%Z
    then print (Scanning (file_count g) (dir_count g) (line_count g)) g
    else (Ok tt, g).

(** the comprehension of lines 79 to 82, which may raise *)
Fixpoint select {A} (p : A -> result bool) (l : list A) : result (list A) :=
  match l with
  | [] => Ok []
  | x :: l' =>
      match p x with
      | Raise e => Raise e
      | Ok b =>
          match select p l' with
          | Raise e => Raise e
          | Ok r => Ok (if b then x :: r else r)
          end
      end
  end.

(** Induction on the file tree, with the hypothesis for every child of a
    directory and for the target of a link. *)
Section NodeInduction.
Variable P : node -> Prop.
Hypothesis HFile : forall nm d, P (File nm d).
Hypothesis HDir : forall nm listing children,
    Forall P children -> P (Dir nm listing children).
Hypothesis HDangling : forall nm, P (Symlink nm None).
Hypothesis HLink : forall nm t, P t -> P (Symlink nm (Some t)).

Fixpoint node_induction (n : node) : P n :=
  match n with
  | File nm d => HFile nm d
  | Dir nm listing children =>
      HDir nm listing children
        ((fix all (cs : list node) : Forall P cs :=
            match cs with
            | [] => Forall_nil P
            | c :: cs' => Forall_cons c (node_induction c) (all cs')
            end) children)
  | Symlink nm None => HDangling nm
  | Symlink nm (Some t) => HLink nm t (node_induction t)
  end.
End NodeInduction.

(** ** Texts of the report *)

(** [str(n)] for an [int] *)
Definition str_int (n : Z) : string :=
  DecimalString.NilZero.string_of_int (Z.to_int n).

(** [str(p)] for an absolute path, whose first part is the root [/] *)
Definition str_path (p : Path) : string :=
  match p with
  | "/" :: rest => "/" ++ String.concat "/" rest
  | _ => as_posix p
  end.

Definition newline : string := String (ascii_of_nat 10) EmptyString.

(** ["=" * 60] *)
Definition rule : string :=
  string_of_list_ascii (repeat "="%char 60).

Definition interpretation : string :=
  "This is a structural snapshot of your repository. " ++
  "It reflects architecture, complexity, and surface area. " ++
  "If this feels large, it’s because the project is doing real work.".

(** ** The ignore file

    The text of the ignore file is handled as the list of its code points;
    a pattern is handed to the matcher as a [string], its UTF-8 encoding. *)

(** the characters at which [str.splitlines] ends a line: line feed,
    carriage return, vertical tab, form feed, the file, group and record
    separators, next line, line separator, paragraph separator *)
Definition is_line_boundary (c : N) : bool :=
  ((10 <=? c) && (c <=? 13) || (28 <=? c) && (c <=? 30) || (c =? 133)
   || (c =? 8232) || (c =? 8233))%N.

(** [c.isspace()] *)
Definition is_space (c : N) : bool :=
  ((9 <=? c) && (c <=? 13) || (28 <=? c) && (c <=? 32) || (c =? 133)
   || (c =? 160) || (c =? 5760) || (8192 <=? c) && (c <=? 8202)
   || (c =? 8232) || (c =? 8233) || (c =? 8239) || (c =? 8287)
   || (c =? 12288))%N.

(** the translation of the line ends that reading in text mode does:
    a carriage return, with the line feed that follows it if any, reads as
    a line feed *)
Fixpoint universal_newlines (text : list N) : list N :=
  match text with
  | [] => []
  | c :: text' =>
      if (c =? 13)%N then
        10%N :: match text' with
                | c' :: text'' =>
                    if (c' =? 10)%N then universal_newlines text''
                    else universal_newlines text'
                | [] => []
                end
      else c :: universal_newlines text'
  end.

(** [text.splitlines()], where [line] is the line read so far: the line
    ends are not kept, a carriage return and the line feed after it are
    one line end, and no empty line follows the last line end *)
Fixpoint splitlines_from (line text : list N) : list (list N) :=
  match text with
  | [] => match line with [] => [] | _ :: _ => [line] end
  | c :: text' =>
      if is_line_boundary c then
        line :: match text' with
                | c' :: text'' =>
                    if (c =? 13)%N && (c' =? 10)%N
                    then splitlines_from [] text''
                    else splitlines_from [] text'
                | [] => []
                end
      else splitlines_from (line ++ [c]) text'
  end.

Definition splitlines (text : list N) : list (list N) :=
  splitlines_from [] text.

(** [s.lstrip()] *)
Fixpoint lstrip (s : list N) : list N :=
  match s with
  | [] => []
  | c :: s' => if is_space c then lstrip s' else s
  end.

(** [s.rstrip()] *)
Definition rstrip (s : list N) : list N := rev (lstrip (rev s)).

(** [s.strip()] *)
Definition strip (s : list N) : list N := rstrip (lstrip s).

(** [line.startswith("#")] *)
Definition is_comment (line : list N) : bool :=
  match line with
  | c :: _ => (c =? 35)%N
  | [] => false
  end.

(** lines 39 to 45: the loop over the lines; the patterns come in the
    order of the lines *)
Fixpoint collect_patterns (lines : list (list N)) : list (list N) :=
  match lines with
  | [] => []
  | line :: rest =>
      let line := strip line in
      match line with
      | [] => collect_patterns rest
      | _ :: _ =>
          if is_comment line then collect_patterns rest
          else line :: collect_patterns rest
      end
  end.

(** the patterns in a decoded text, before the line ends are translated *)
Definition patterns_of_text (text : list N) : list (list N) :=
  collect_patterns (splitlines (universal_newlines text)).

(** the UTF-8 encoding of a code point *)
Definition encode_char (c : N) : list ascii :=
  if (c <? 128)%N then [ascii_of_N c]
  else if (c <? 2048)%N then
    [ascii_of_N (192 + c / 64); ascii_of_N (128 + c mod 64)]
  else if (c <? 65536)%N then
    [ascii_of_N (224 + c / 4096); ascii_of_N (128 + (c / 64) mod 64);
     ascii_of_N (128 + c mod 64)]
  else
    [ascii_of_N (240 + c / 262144); ascii_of_N (128 + (c / 4096) mod 64);
     ascii_of_N (128 + (c / 64) mod 64); ascii_of_N (128 + c mod 64)].

Definition encode_text (text : list N) : string :=
  string_of_list_ascii (flat_map encode_char text).

(** a chain of links from [p] ends at a file or a directory *)
Fixpoint resolves (p : node) : bool :=
  match p with
  | Symlink _ (Some t) => resolves t
  | Symlink _ None => false
  | _ => true
  end.

(** [p.exists()]: follows links, and is [False] for a link that dangles *)
Definition exists_ (p : option node) : bool :=
  match p with
  | None => false
  | Some n => resolves n
  end.

(** [p.read_text(encoding="utf-8")] as code points: the decoding is strict
    (a [UnicodeDecodeError] is a [ValueError]), and on well-formed bytes
    the lenient decoder drops nothing *)
Fixpoint read_text (p : node) : result (list N) :=
  match p with
  | File _ (Bytes content) =>
      if utf8_valid content
      then Ok (universal_newlines (decode_utf8_ignore content))
      else Raise ValueError
  | File _ (Unreadable e) => Raise e
  | Dir _ _ _ => Raise IsADirectoryError
  | Symlink _ (Some t) => read_text t
  | Symlink _ None => Raise FileNotFoundError
  end.

(** [load_ignore_patterns(ignore_file)], where [ignore_file] is the node
    that the path names, if there is one *)
Definition load_ignore_patterns (ignore_file : option node)
  : result (list string) :=
  if negb (exists_ ignore_file) then Ok []
  else
    match ignore_file with
    | None => Ok []
    | Some f =>
        match read_text f with
        | Raise e => Raise e
        | Ok text => Ok (map encode_text (collect_patterns (splitlines text)))
        end
    end.

(** the code points of an ASCII text *)
Definition code_points (s : string) : list N := map N_of_ascii (chars s).

(** ["\n".join(lines)] *)
Fixpoint join_lines (lines : list (list N)) : list N :=
  match lines with
  | [] => []
  | line :: rest =>
      match rest with
      | [] => line
      | _ :: _ => line ++ 10%N :: join_lines rest
      end
  end.

(** a line as [load_ignore_patterns] keeps it: not empty, no comment,
    no white space at either end, no line end inside *)
Definition clean (line : list N) : Prop :=
  line <> [] /\
  is_comment line = false /\
  is_space (hd 0%N line) = false /\
  is_space (last line 0%N) = false /\
  Forall (fun c => is_line_boundary c = false) line.

(** ** Data for the worked examples *)

(** A reading of the character sets to run the examples with: a leading
    [!] negates, [lo-hi] is a range, any other character stands for
    itself.  (No pattern of the examples has a set.) *)
Fixpoint in_ranges (c : ascii) (stuff : list ascii) : bool :=
  match stuff with
  | [] => false
  | lo :: rest =>
      match rest with
      | "-"%char :: hi :: rest' =>
          (Nat.leb (nat_of_ascii lo) (nat_of_ascii c) &&
           Nat.leb (nat_of_ascii c) (nat_of_ascii hi))
          || in_ranges c rest'
      | _ => Ascii.eqb lo c || in_ranges c rest
      end
  end.

Definition simple_charset (stuff : list ascii) (c : ascii) : bool :=
  match stuff with
  | "!"%char :: rest => negb (in_ranges c rest)
  | _ => in_ranges c stuff
  end.

Definition project : Path := ["/"; "home"; "project"].

(** three lines, [a], [b] and [c], each ended by a line feed *)
Definition three_lines : list byte := [x61; x0a; x62; x0a; x63; x0a].

(** five lines: the last one has no line end *)
Definition five_lines : list byte :=
  [x31; x0a; x32; x0a; x33; x0a; x34; x0a; x35].

(** bytes that are not UTF-8, with two line feeds among them *)
Definition binary_blob : list byte := [xff; xfe; x0a; x00; xc3; x0a].

(** one file of three lines and one subdirectory with a file of five *)
Definition small_tree : node :=
  Dir "project" None
    [File "a.txt" (Bytes three_lines);
     Dir "sub" None [File "b.txt" (Bytes five_lines)]].

(** a build directory, a file whose name starts like it, two files that
    differ in case, a link back to the root, a file that cannot be opened *)
Definition mixed_tree : node :=
  Dir "project" None
    [File "builder.py" (Bytes three_lines);
     Dir "build" None
       [File "output.log" (Bytes five_lines);
        Dir "cache" None [File "x.bin" (Bytes binary_blob)]];
     File "Banana" (Bytes three_lines);
     File "apple" (Bytes five_lines);
     Symlink "loop" (Some (Dir "project" None [File "a.txt" (Bytes three_lines)]));
     File "locked" (Unreadable PermissionError)].


(** a directory whose listing fails for another reason *)
Definition vanishing_tree : node :=
  Dir "project" None
    [Dir "a" None [];
     Dir "gone" (Some FileNotFoundError) [];
     File "c.txt" (Bytes three_lines)].

Definition blob_tree : node :=
  Dir "project" None [File "blob.bin" (Bytes binary_blob)].

(** the bytes of an ignore file: a comment, an empty line, and the
    pattern for the files that end in [.tmp] *)
Definition ignore_bytes : list byte :=
  [x23; x20; x63; x6f; x6d; x6d; x65; x6e; x74; x0a; x0a;
   x2a; x2e; x74; x6d; x70; x0a].

(** [str.lower] on ASCII text, where it moves the capitals [A] to [Z] to
    the small letters and leaves every other character; the names of the
    worked examples are ASCII. *)
Definition lower_ascii (c : ascii) : ascii :=
  let n := nat_of_ascii c in
  if Nat.leb 65 n && Nat.leb n 90 then ascii_of_nat (n + 32) else c.

Fixpoint ascii_lower (s : string) : string :=
  match s with
  | EmptyString => EmptyString
  | String c s' => String (lower_ascii c) (ascii_lower s')
  end.

(** [str.lower] on text of the Latin-1 range (up to U+00FF): besides the
    ASCII capitals, the capitals U+00C0 to U+00DE other than the
    multiplication sign U+00D7 move to the small letters, 32 places up.
    In UTF-8 these are the byte 0xC3 followed by a byte from 0x80 to
    0x9E. *)
Fixpoint latin1_lower (s : string) : string :=
  match s with
  | EmptyString => EmptyString
  | String c t =>
      match t with
      | EmptyString => String (lower_ascii c) EmptyString
      | String d s' =>
          let n := nat_of_ascii d in
          if Nat.eqb (nat_of_ascii c) 195 && Nat.leb 128 n && Nat.leb n 158
             && negb (Nat.eqb n 151)
          then String c (String (ascii_of_nat (n + 32)) (latin1_lower s'))
          else String (lower_ascii c) (latin1_lower t)
      end
  end.

Section Scanner.

(** The meaning of a character set is that of Python's [re] on the set that
    [fnmatch.translate] writes for the text between the brackets (negation by a
    leading [!], ranges, escapes).  Nothing below depends on it, so it
    is left open: [in_charset stuff c] says that the set written as
    [[stuff]] accepts the character [c]. *)
Variable in_charset : list ascii -> ascii -> bool.

(** [str.lower], on the UTF-8 encoding of the text.  It follows the
    Unicode case mapping of the Python build; nothing below depends on
    how it maps a name, so it is left open. *)
Variable lower : string -> string.

(** the key of [sorted]: [(p.is_file(), p.name.lower())] *)
Definition sort_key (p : node) : bool * string := (is_file p, lower (name p)).

(** [fnmatch.translate]: [res] is the list being built, [skip] the number
    of characters of [pat] that the index has already moved past (after a
    character set, [i = j + 1]). *)
Fixpoint translate_from (skip : nat) (pat : list ascii) (res : list token)
  : list token :=
  match pat with
  | [] => res
  | c :: rest =>
      match skip with
      | S k => translate_from k rest res
      | O =>
          if Ascii.eqb c "*" then
            (* consecutive stars are compressed into one *)
            match rev res with
            | STAR :: _ => translate_from 0 rest res
            | _ => translate_from 0 rest (res ++ [STAR])
            end
          else if Ascii.eqb c "?" then
            translate_from 0 rest (res ++ [QMARK])
          else if Ascii.eqb c "[" then
            match bracket_end rest with
            | None => translate_from 0 rest (res ++ [LIT "["])
            | Some j => translate_from (S j) rest (res ++ [SET (firstn j rest)])
            end
          else
            translate_from 0 rest (res ++ [LIT c])
      end
  end.

Definition translate (pat : string) : list token :=
  translate_from 0 (chars pat) [].

(** A match of the whole text against the translated pattern. *)
Fixpoint match_tokens (ts : list token) (s : list ascii) : bool :=
  match ts with
  | [] => match s with [] => true | _ :: _ => false end
  | STAR :: ts' =>
      (fix star (s : list ascii) : bool :=
         match_tokens ts' s ||
         match s with
         | [] => false
         | _ :: s' => star s'
         end) s
  | QMARK :: ts' =>
      match s with
      | [] => false
      | _ :: s' => match_tokens ts' s'
      end
  | LIT c :: ts' =>
      match s with
      | [] => false
      | x :: s' => Ascii.eqb x c && match_tokens ts' s'
      end
  | SET stuff :: ts' =>
      match s with
      | [] => false
      | x :: s' => in_charset stuff x && match_tokens ts' s'
      end
  end.

Definition fnmatch (name pat : string) : bool :=
  match_tokens (translate pat) (chars name).

(** ** Ignore handling *)

(** The loop of [is_ignored] over the patterns, on the relative path. *)
Fixpoint match_patterns (rel : string) (patterns : list string) : bool :=
  match patterns with
  | [] => false
  | pattern :: rest =>
      (* Directory ignore *)
      if endswith pattern "/" && startswith rel (drop_last pattern) then true
      (* Glob ignore *)
      else if fnmatch rel pattern then true
      else match_patterns rel rest
  end.

Definition is_ignored (path : Path) (patterns : list string) (root : Path)
  : result bool :=
  match relative_to path root with
  | Raise e => Raise e
  | Ok relp => Ok (match_patterns (as_posix relp) patterns)
  end.

(** ** Tree building and metrics *)

(** the condition of the comprehension, for the entry [e] of [path] *)
Definition keep (path root : Path) (ignore : list string) (e : node)
  : result bool :=
  if is_symlink e then Ok false
  else match is_ignored (joinpath path (name e)) ignore root with
       | Ok b => Ok (negb b)
       | Raise ex => Raise ex
       end.

(** A recursive call of [build_tree] on an entry, waiting for the path of
    the entry and the prefix. *)
Definition walker : Type := Path -> string -> comp (list string).

(** lines 78 to 84: the entries of a directory that lists as [listing],
    each paired with the walk of it *)
Definition list_entries (path root : Path) (ignore : list string)
    (listing : option exn) (children : list (node * walker))
  : result (list (node * walker)) :=
  match listing with
  | Some e => Raise e
  | None =>
      match select (fun ew => keep path root ignore (fst ew)) children with
      | Raise e => Raise e
      | Ok es => Ok (sorted (fun ew => sort_key (fst ew)) es)
      end
  end.

(** lines 89 to 106: the body of the loop for one entry; [last] is
    [index == len(entries) - 1] and [lines] the list built so far *)
Definition visit_entry (path : Path) (prefix : string) (last : bool)
    (entry : node) (walk : walker) (lines : list string)
  : comp (list string) :=
  let connector := if last then "└── " else "├── " in
  let lines := lines ++ [(prefix ++ connector ++ name entry)%string] in
  lines <- (if is_dir entry then
              incr_dir_count ;;;
              let extension := if last then "    " else "│   " in
              sub <- walk (joinpath path (name entry))
                          (prefix ++ extension)%string ;;
              ret (lines ++ sub)
            else
              incr_file_count ;;;
              count_file entry ;;;
              ret lines) ;;
  heartbeat ;;;
  ret lines.

(** lines 88 to 106: the loop over the entries from position [index] on;
    [len] is [len(entries)] *)
Fixpoint for_entries (path : Path) (prefix : string) (len index : nat)
    (entries : list (node * walker)) (lines : list string)
  : comp (list string) :=
  match entries with
  | [] => ret lines
  | (entry, walk) :: rest =>
      lines <- visit_entry path prefix (Nat.eqb index (len - 1))
                           entry walk lines ;;
      for_entries path prefix len (S index) rest lines
  end.

(** the body of [build_tree] on a directory that lists as [listing] with
    the given children *)
Definition walk_directory (path root : Path) (ignore : list string)
    (prefix : string) (listing : option exn) (children : list (node * walker))
  : comp (list string) :=
  match list_entries path root ignore listing children with
  | Raise e => if is_PermissionError e then ret [] else raise e
  | Ok entries => for_entries path prefix (List.length entries) 0 entries []
  end.

(** [build_tree(path, root, ignore, prefix)], where [dir] is the node that
    [path] names.  [iterdir] follows a link, and raises on what is not a
    directory.  Every child is handed to the body together with the
    recursive call on it, which the loop makes for the entries that are
    left after the filter and the sort ([build_tree_listed] below gives
    the walk in the shape of the source). *)
Fixpoint build_tree (dir : node) (root : Path) (ignore : list string)
    (path : Path) (prefix : string) {struct dir} : comp (list string) :=
  match dir with
  | Dir _ listing children =>
      walk_directory path root ignore prefix listing
        (map (fun e => (e, build_tree e root ignore)) children)
  | Symlink _ (Some target) => build_tree target root ignore path prefix
  | Symlink _ None => raise FileNotFoundError
  | File _ _ => raise NotADirectoryError
  end.

(** ** Main execution

    What [main] takes from outside the program: the working directory and
    the node it names, the patterns that the call of
    [load_ignore_patterns] at line 120 returned, the texts of the clock
    readings ([strftime], [isoformat], and the scan time printed with two
    decimals), and the exception that [write_text] raises at line 160, if
    it raises one.  [main] below is the function from line 122 on: a run
    in which the call of line 120 raises ends there, with nothing printed
    and nothing written. *)

Record run : Type := mkRun {
  cwd : Path;
  cwd_node : node;
  ignore_patterns : list string;
  timestamp : string;
  generated : string;
  scan_time : string;
  write_error : option exn
}.

(** lines 129 and 130: the name of the root, then the lines of the walk *)
Definition scan (root : Path) (root_node : node) (ignore : list string)
  : comp (list string) :=
  let tree_lines := [path_name root] in
  sub <- build_tree root_node root ignore root "" ;;
  ret (tree_lines ++ sub).

(** lines 137 to 158 *)
Definition report (r : run) (tree_lines : list string) (g : globals)
  : list string :=
  ["Project Tree Report";
   "Generated: " ++ generated r;
   "Root: " ++ str_path (cwd r);
   "";
   "ASCII TREE";
   rule]%string
  ++ tree_lines ++
  ["";
   "PROJECT METRICS";
   rule;
   "Directories: " ++ str_int (dir_count g);
   "Files:       " ++ str_int (file_count g);
   "Lines of code: " ++ str_int (line_count g);
   "Scan time:    " ++ scan_time r ++ " seconds";
   "";
   "Interpretation:";
   interpretation]%string.

(** [output_file.write_text(text, encoding="utf-8")]: the value is the
    file written, its path and its text *)
Definition write_text (r : run) (output_file : Path) (text : string)
  : comp (Path * string) :=
  match write_error r with
  | Some e => raise e
  | None => ret (output_file, text)
  end.

(** [main]: its value is the file that [write_text] writes; when the walk
    or [write_text] raises, nothing is written and the completion summary
    is not printed. *)
Definition main (r : run) : comp (Path * string) :=
  let root := cwd r in
  print (Starting (List.length (ignore_patterns r)) root) ;;;
  tree_lines <- scan root (cwd_node r) (ignore_patterns r) ;;
  let output_file :=
    joinpath root ("project_tree_" ++ timestamp r ++ ".txt")%string in
  fun g =>
    let text := String.concat newline (report r tree_lines g) in
    (written <- write_text r output_file text ;;
     print (Complete (file_count g) (dir_count g) (line_count g) output_file)
     ;;; ret written) g.

(** ** Notions used in the statements

    Below, [rel] is the list of the parts of a directory's path relative to
    the root, so that the directory is at [root ++ rel]. *)

(** the entry [e] of the directory at [rel] passes the filter of lines 79
    to 82 *)
Definition kept (ignore : list string) (rel : Path) (e : node) : bool :=
  negb (is_symlink e) &&
  negb (match_patterns (as_posix (rel ++ [name e])) ignore).

(** the entries of the directory at [rel], in the order of the loop *)
Definition entries_of (ignore : list string) (rel : Path)
    (children : list node) : list node :=
  sorted sort_key (filter (kept ignore rel) children).

Definition sumZ (l : list Z) : Z := fold_right Z.add 0%Z l.

(** The number of entries that the walk of [n] visits: those that pass the
    filter, in [n] and in every directory visited that can be listed. *)
Fixpoint visited (ignore : list string) (rel : Path) (n : node) : Z :=
  match n with
  | Dir _ None children =>
      sumZ (map (fun c =>
                   if kept ignore rel c
                   then (1 + (if is_dir c
                              then visited ignore (rel ++ [name c]) c
                              else 0))%Z
                   else 0%Z) children)
  | Dir _ (Some _) _ => 0%Z
  | Symlink _ (Some t) => visited ignore rel t
  | _ => 0%Z
  end.




(** the tree without its symbolic links *)
Fixpoint strip_symlinks (n : node) : node :=
  match n with
  | Dir nm listing children =>
      Dir nm listing
        (filter (fun c => negb (is_symlink c)) (map strip_symlinks children))
  | _ => n
  end.

(** the tree without the entries whose relative path satisfies [d], and
    without what lies beneath them *)
Fixpoint without (d : string -> bool) (rel : Path) (n : node) : node :=
  match n with
  | Dir nm listing children =>
      Dir nm listing
        (filter (fun c => negb (d (as_posix (rel ++ [name c]))))
           (map (fun c => without d (rel ++ [name c]) c) children))
  | _ => n
  end.


(** The walk of [n] meets a directory whose listing raises something other
    than a permission error (or [n] is not a directory at all). *)
Fixpoint listing_fails (ignore : list string) (rel : Path) (n : node) : bool :=
  match n with
  | Dir _ (Some e) _ => negb (is_PermissionError e)
  | Dir _ None children =>
      existsb (fun c => kept ignore rel c && is_dir c &&
                        listing_fails ignore (rel ++ [name c]) c) children
  | Symlink _ (Some t) => listing_fails ignore rel t
  | Symlink _ None => true
  | File _ _ => true
  end.

(** a part of a path: not empty, and without a separator *)
Definition is_name (s : string) : bool :=
  negb (String.eqb s "") &&
  forallb (fun c => negb (Ascii.eqb c "/")) (chars s).

(** two states of the globals with the same counters *)
Definition same_counters (g1 g2 : globals) : Prop :=
  file_count g1 = file_count g2 /\
  dir_count g1 = dir_count g2 /\
  line_count g1 = line_count g2.



(** [agree c1 c2]: started on globals with the same counters, the two
    computations end with the same outcome and the same counters; what the
    console already shows has no influence. *)
Definition agree {A} (c1 c2 : comp A) : Prop :=
  forall g1 g2, same_counters g1 g2 ->
    fst (c1 g1) = fst (c2 g2) /\ same_counters (snd (c1 g1)) (snd (c2 g2)).

(** Two entries look alike from the directory at [path] when the program
    observes the same of them: name, kind, line count, and the lines and
    effects of the recursive call. *)
Definition alike (path : Path) (a b : node * walker) : Prop :=
  name (fst a) = name (fst b) /\
  is_symlink (fst a) = is_symlink (fst b) /\
  is_file (fst a) = is_file (fst b) /\
  is_dir (fst a) = is_dir (fst b) /\
  read_line_count (fst a) = read_line_count (fst b) /\
  forall prefix g,
    snd a (joinpath path (name (fst a))) prefix g
    = snd b (joinpath path (name (fst b))) prefix g.

(** what a file adds to [line_count] *)
Definition lines_of (entry : node) : Z :=
  match read_line_count entry with
  | Ok n => n
  | Raise _ => 0%Z
  end.

Definition connector_of (last : bool) : string :=
  if last then "└── " else "├── ".

Definition extension_of (last : bool) : string :=
  if last then "    " else "│   ".

(** what the visit of the entry [c] of the directory at [rel] adds to
    [file_count + dir_count] *)
Definition visits (ignore : list string) (rel : Path) (c : node) : Z :=
  (1 + (if is_dir c then visited ignore (rel ++ [name c]) c else 0))%Z.


(** What the walk of [n] adds to a counter to which every directory
    visited adds [dir_w] and every other entry visited [file_w] of it. *)
Fixpoint tally (file_w : node -> Z) (dir_w : Z) (ignore : list string)
    (rel : Path) (n : node) : Z :=
  match n with
  | Dir _ None children =>
      sumZ (map (fun c =>
                   if kept ignore rel c
                   then (if is_dir c
                         then dir_w + tally file_w dir_w ignore
                                        (rel ++ [name c]) c
                         else file_w c)%Z
                   else 0%Z) children)
  | Dir _ (Some _) _ => 0%Z
  | Symlink _ (Some t) => tally file_w dir_w ignore rel t
  | _ => 0%Z
  end.

(** a heartbeat message for a number of files between [lo] and [hi] *)
Definition is_heartbeat (lo hi : Z) (m : message) : Prop :=
  exists f d l,
    m = Scanning f d l /\
    (0 < f)%Z /\ (f mod 200 = 0)%Z /\ (lo <= f <= hi)%Z.

(** from [g] to [g'] the counters have not decreased and the console has
    only received heartbeat messages *)
Definition progress (g g' : globals) : Prop :=
  (file_count g <= file_count g')%Z /\
  (dir_count g <= dir_count g')%Z /\
  (line_count g <= line_count g')%Z /\
  exists added,
    console g' = console g ++ added /\
    Forall (is_heartbeat (file_count g) (file_count g')) added.

(** a computation that only makes progress, whatever its outcome *)
Definition steady {A} (c : comp A) : Prop :=
  forall g, progress g (snd (c g)).

(** [block] is what the loop appends for the entry [e], which is the last
    one or not as [last] says *)
Definition block_at (root : Path) (ignore : list string) (path : Path)
    (prefix : string) (last : bool) (e : node) (block : list string) : Prop :=
  exists sub,
    block = (prefix ++ connector_of last ++ name e)%string :: sub /\
    if is_dir e
    then exists g1 g2,
        build_tree e root ignore (joinpath path (name e))
          (prefix ++ extension_of last)%string g1 = (Ok sub, g2)
    else sub = [].

(** one turn of the loop of [is_ignored] *)
Definition matches (rel pattern : string) : bool :=
  (endswith pattern "/" && startswith rel (drop_last pattern))
  || fnmatch rel pattern.

(** a pattern without any of the characters that [fnmatch] reads as
    wildcards *)
Definition is_literal (pattern : string) : bool :=
  forallb (fun c => negb (Ascii.eqb c "*" || Ascii.eqb c "?" || Ascii.eqb c "["))
    (chars pattern).

(** ** The walk below the root *)

Lemma relative_to_app (root rel : Path) :
  relative_to (root ++ rel) root = Ok rel.
Proof.
  induction root as [|r root IH]; simpl; [reflexivity|].
  now rewrite String.eqb_refl.
Qed.

Lemma is_ignored_under (root rel : Path) (patterns : list string) :
  is_ignored (root ++ rel) patterns root
  = Ok (match_patterns (as_posix rel) patterns).
Proof. unfold is_ignored. now rewrite relative_to_app. Qed.

Lemma keep_under (root rel : Path) (ignore : list string) (e : node) :
  keep (root ++ rel) root ignore e = Ok (kept ignore rel e).
Proof.
  unfold keep, kept, joinpath.
  destruct (is_symlink e); [reflexivity|].
  now rewrite <- app_assoc, is_ignored_under.
Qed.

Lemma select_total {A} (f : A -> bool) (p : A -> result bool) (l : list A) :
  (forall x, p x = Ok (f x)) -> select p l = Ok (filter f l).
Proof.
  intros Hp. induction l as [|x l IH]; simpl; [reflexivity|].
  rewrite Hp, IH. now destruct (f x).
Qed.

Lemma filter_pairs {A B} (f : A -> bool) (h : A -> B) (l : list A) :
  filter (fun ab => f (fst ab)) (map (fun a => (a, h a)) l)
  = map (fun a => (a, h a)) (filter f l).
Proof.
  induction l as [|x l IH]; simpl; [reflexivity|].
  rewrite IH. now destruct (f x).
Qed.

Lemma insert_by_map {A B} (h : A -> B) (key : B -> bool * string)
    (x : A) (l : list A) :
  insert_by key (h x) (map h l) = map h (insert_by (fun a => key (h a)) x l).
Proof.
  induction l as [|y l IH]; simpl; [reflexivity|].
  destruct (key_ltb (key (h y)) (key (h x))); simpl; [now rewrite IH|reflexivity].
Qed.

Lemma sorted_map {A B} (h : A -> B) (key : B -> bool * string) (l : list A) :
  sorted key (map h l) = map h (sorted (fun a => key (h a)) l).
Proof.
  induction l as [|x l IH]; simpl; [reflexivity|].
  now rewrite IH, insert_by_map.
Qed.

Lemma list_entries_under (root rel : Path) (ignore : list string)
    (w : node -> walker) (children : list node) :
  list_entries (root ++ rel) root ignore None (map (fun e => (e, w e)) children)
  = Ok (map (fun e => (e, w e)) (entries_of ignore rel children)).
Proof.
  unfold list_entries, entries_of.
  rewrite (select_total (fun ew => kept ignore rel (fst ew))).
  - rewrite filter_pairs.
    now rewrite (sorted_map (fun e => (e, w e)) (fun ew => sort_key (fst ew))).
  - intros [e we]. apply keep_under.
Qed.

(** The walk of a directory that can be listed is the loop of lines 88 to
    106 over its sorted entries, each with the recursive call on it. *)
Lemma build_tree_listed (nm : string) (children : list node)
    (root rel : Path) (ignore : list string) (prefix : string) :
  build_tree (Dir nm None children) root ignore (root ++ rel) prefix
  = for_entries (root ++ rel) prefix
      (List.length (entries_of ignore rel children)) 0
      (map (fun e => (e, build_tree e root ignore))
           (entries_of ignore rel children)) [].
Proof.
  simpl. unfold walk_directory.
  rewrite (list_entries_under root rel ignore (fun e => build_tree e root ignore)).
  now rewrite length_map.
Qed.

(** ** The comprehension and the sort keep to the listed entries *)

Lemma insert_by_perm {A} (key : A -> bool * string) (x : A) (l : list A) :
  Permutation (insert_by key x l) (x :: l).
Proof.
  induction l as [|y l IH]; simpl; [reflexivity|].
  destruct (key_ltb (key y) (key x)); [|reflexivity].
  rewrite IH. apply perm_swap.
Qed.

Lemma sorted_perm {A} (key : A -> bool * string) (l : list A) :
  Permutation (sorted key l) l.
Proof.
  induction l as [|x l IH]; simpl; [reflexivity|].
  rewrite insert_by_perm. now constructor.
Qed.

Lemma sorted_Forall {A} (key : A -> bool * string) (Q : A -> Prop)
    (l : list A) :
  Forall Q l -> Forall Q (sorted key l).
Proof.
  intros H. eapply Permutation_Forall; [|exact H].
  symmetry. apply sorted_perm.
Qed.

Lemma select_Forall {A} (p : A -> result bool) (Q : A -> Prop)
    (l r : list A) :
  select p l = Ok r -> Forall Q l -> Forall Q r.
Proof.
  revert r. induction l as [|x l IH]; simpl; intros r Hs Hl.
  - injection Hs as <-. constructor.
  - inversion Hl as [|? ? Hx Hl']; subst.
    destruct (p x) as [b|]; [|discriminate].
    destruct (select p l) as [r'|]; [|discriminate].
    injection Hs as <-.
    destruct b; [constructor; [exact Hx|]|]; now apply IH.
Qed.

(** ** Runs that start from the same counters *)

Lemma agree_ret {A} (a : A) : agree (ret a) (ret a).
Proof. intros g1 g2 H. now split. Qed.

Lemma agree_raise {A} (e : exn) : agree (@raise A e) (raise e).
Proof. intros g1 g2 H. now split. Qed.

Lemma agree_bind {A B} (c1 c2 : comp A) (k1 k2 : A -> comp B) :
  agree c1 c2 -> (forall a, agree (k1 a) (k2 a)) ->
  agree (bind c1 k1) (bind c2 k2).
Proof.
  intros Hc Hk g1 g2 H. unfold bind.
  destruct (Hc g1 g2 H) as [Hv Hg].
  destruct (c1 g1) as [[a1|e1] g1'], (c2 g2) as [[a2|e2] g2'];
    simpl in Hv, Hg; try discriminate.
  - injection Hv as ->. now apply Hk.
  - injection Hv as ->. simpl. now split.
Qed.

Lemma agree_incr_file_count : agree incr_file_count incr_file_count.
Proof.
  intros g1 g2 (Hf & Hd & Hl). unfold same_counters; simpl.
  rewrite Hf, Hd, Hl. auto.
Qed.

Lemma agree_incr_dir_count : agree incr_dir_count incr_dir_count.
Proof.
  intros g1 g2 (Hf & Hd & Hl). unfold same_counters; simpl.
  rewrite Hf, Hd, Hl. auto.
Qed.

Lemma agree_count_file (entry : node) : agree (count_file entry) (count_file entry).
Proof.
  unfold count_file. destruct (read_line_count entry); [|apply agree_ret].
  intros g1 g2 (Hf & Hd & Hl). unfold same_counters; simpl.
  rewrite Hf, Hd, Hl. auto.
Qed.

Lemma agree_heartbeat : agree heartbeat heartbeat.
Proof.
  intros g1 g2 (Hf & Hd & Hl). unfold heartbeat, same_counters. rewrite Hf.
  destruct ((file_count g2 mod 200 =? 0)%Z && (0 <? file_count g2)%Z);
    simpl; auto.
Qed.

Lemma agree_visit_entry (path : Path) (prefix : string) (last : bool)
    (entry : node) (walk : walker) (lines : list string) :
  (forall p pre, agree (walk p pre) (walk p pre)) ->
  agree (visit_entry path prefix last entry walk lines)
        (visit_entry path prefix last entry walk lines).
Proof.
  intros Hw. unfold visit_entry.
  apply agree_bind.
  - destruct (is_dir entry).
    + apply agree_bind; [apply agree_incr_dir_count|intros _].
      apply agree_bind; [apply Hw|intros sub; apply agree_ret].
    + apply agree_bind; [apply agree_incr_file_count|intros _].
      apply agree_bind; [apply agree_count_file|intros _; apply agree_ret].
  - intros ls. apply agree_bind; [apply agree_heartbeat|intros _; apply agree_ret].
Qed.

Lemma agree_for_entries (path : Path) (prefix : string) (len : nat)
    (entries : list (node * walker)) :
  Forall (fun ew => forall p pre, agree (snd ew p pre) (snd ew p pre)) entries ->
  forall index lines,
    agree (for_entries path prefix len index entries lines)
          (for_entries path prefix len index entries lines).
Proof.
  induction 1 as [|[entry walk] rest Hw _ IH]; intros index lines; simpl.
  - apply agree_ret.
  - apply agree_bind; [now apply agree_visit_entry|intros ls; apply IH].
Qed.

Lemma agree_build_tree (n : node) (root : Path) (ignore : list string) :
  forall path prefix,
    agree (build_tree n root ignore path prefix)
          (build_tree n root ignore path prefix).
Proof.
  induction n as [nm d|nm listing children IH|nm|nm t IH] using node_induction;
    intros path prefix; simpl.
  - apply agree_raise.
  - unfold walk_directory.
    destruct (list_entries path root ignore listing
                (map (fun e => (e, build_tree e root ignore)) children))
      as [entries|e] eqn:Hentries.
    + apply agree_for_entries.
      unfold list_entries in Hentries. destruct listing; [discriminate|].
      destruct (select _ _) as [es|] eqn:Hsel; [|discriminate].
      injection Hentries as <-.
      apply sorted_Forall. eapply select_Forall; [exact Hsel|].
      clear Hsel. induction IH as [|c cs Hc _ IHcs]; simpl; constructor; auto.
    + destruct (is_PermissionError e); [apply agree_ret|apply agree_raise].
  - apply agree_raise.
  - apply IH.
Qed.

(** ** Walks of two listings that look alike *)

Lemma bind_ext {A B} (c1 c2 : comp A) (k1 k2 : A -> comp B) (g : globals) :
  c1 g = c2 g -> (forall a g', k1 a g' = k2 a g') ->
  bind c1 k1 g = bind c2 k2 g.
Proof.
  intros Hc Hk. unfold bind. rewrite Hc.
  destruct (c2 g) as [[a|e] g']; auto.
Qed.

Lemma visit_entry_alike (path : Path) (prefix : string) (last : bool)
    (a b : node * walker) (lines : list string) (g : globals) :
  alike path a b ->
  visit_entry path prefix last (fst a) (snd a) lines g
  = visit_entry path prefix last (fst b) (snd b) lines g.
Proof.
  intros (Hn & _ & _ & Hd & Hr & Hw).
  unfold visit_entry, count_file, bind. rewrite Hn, Hd, Hr.
  destruct (is_dir (fst b)); [|reflexivity].
  simpl. rewrite <- Hn at 1. now rewrite Hw.
Qed.

Lemma for_entries_alike (path : Path) (prefix : string) (len : nat)
    (es1 es2 : list (node * walker)) :
  Forall2 (alike path) es1 es2 ->
  forall index lines g,
    for_entries path prefix len index es1 lines g
    = for_entries path prefix len index es2 lines g.
Proof.
  induction 1 as [|a b es1 es2 Hab _ IH]; intros index lines g; [reflexivity|].
  destruct a as [e1 w1], b as [e2 w2]. cbn [for_entries].
  apply bind_ext.
  - exact (visit_entry_alike path prefix _ (e1, w1) (e2, w2) lines g Hab).
  - intros ls g'. apply IH.
Qed.

Lemma insert_by_alike (path : Path) (a b : node * walker)
    (l1 l2 : list (node * walker)) :
  alike path a b -> Forall2 (alike path) l1 l2 ->
  Forall2 (alike path)
    (insert_by (fun ew => sort_key (fst ew)) a l1)
    (insert_by (fun ew => sort_key (fst ew)) b l2).
Proof.
  intros Hab H. induction H as [|x y l1 l2 Hxy H IH]; simpl.
  - constructor; [exact Hab|constructor].
  - assert (Hk : forall u v, alike path u v ->
               sort_key (fst u) = sort_key (fst v)).
    { intros u v (Hn & _ & Hf & _). unfold sort_key. now rewrite Hn, Hf. }
    rewrite (Hk _ _ Hab), (Hk _ _ Hxy).
    destruct (key_ltb (sort_key (fst y)) (sort_key (fst b))).
    + constructor; [exact Hxy|exact IH].
    + constructor; [exact Hab|]. constructor; [exact Hxy|exact H].
Qed.

Lemma sorted_alike (path : Path) (l1 l2 : list (node * walker)) :
  Forall2 (alike path) l1 l2 ->
  Forall2 (alike path)
    (sorted (fun ew => sort_key (fst ew)) l1)
    (sorted (fun ew => sort_key (fst ew)) l2).
Proof.
  induction 1; simpl; [constructor|]. now apply insert_by_alike.
Qed.

Lemma keep_alike (path root : Path) (ignore : list string)
    (a b : node * walker) :
  alike path a b ->
  keep path root ignore (fst a) = keep path root ignore (fst b).
Proof. intros (Hn & Hs & _). unfold keep. now rewrite Hn, Hs. Qed.

Lemma list_entries_alike (path root : Path) (ignore : list string)
    (listing : option exn) (l1 l2 : list (node * walker)) :
  Forall2 (alike path) l1 l2 ->
  match list_entries path root ignore listing l1,
        list_entries path root ignore listing l2 with
  | Ok es1, Ok es2 => Forall2 (alike path) es1 es2
  | Raise e1, Raise e2 => e1 = e2
  | _, _ => False
  end.
Proof.
  intros H. unfold list_entries. destruct listing as [e|]; [reflexivity|].
  assert (Hsel : match select (fun ew => keep path root ignore (fst ew)) l1,
                       select (fun ew => keep path root ignore (fst ew)) l2 with
                 | Ok r1, Ok r2 => Forall2 (alike path) r1 r2
                 | Raise e1, Raise e2 => e1 = e2
                 | _, _ => False
                 end).
  { induction H as [|a b l1 l2 Hab H IH]; simpl; [constructor|].
    rewrite (keep_alike path root ignore a b Hab).
    destruct (keep path root ignore (fst b)) as [k|e]; [|reflexivity].
    destruct (select _ l1) as [r1|e1], (select _ l2) as [r2|e2]; try easy.
    destruct k; [constructor|]; assumption. }
  destruct (select _ l1) as [r1|e1], (select _ l2) as [r2|e2]; try easy.
  now apply sorted_alike.
Qed.

Lemma walk_directory_alike (path root : Path) (ignore : list string)
    (prefix : string) (listing : option exn) (l1 l2 : list (node * walker))
    (g : globals) :
  Forall2 (alike path) l1 l2 ->
  walk_directory path root ignore prefix listing l1 g
  = walk_directory path root ignore prefix listing l2 g.
Proof.
  intros H. unfold walk_directory.
  pose proof (list_entries_alike path root ignore listing l1 l2 H) as He.
  destruct (list_entries path root ignore listing l1) as [es1|e1],
           (list_entries path root ignore listing l2) as [es2|e2];
    try contradiction.
  - rewrite (Forall2_length He). now apply for_entries_alike.
  - now subst.
Qed.

(** Entries that the comprehension rejects may as well be absent. *)
Lemma select_filter {A} (p : A -> result bool) (q : A -> bool) (l : list A) :
  (forall x, q x = false -> p x = Ok false) ->
  select p (filter q l) = select p l.
Proof.
  intros Hq. induction l as [|x l IH]; simpl; [reflexivity|].
  destruct (q x) eqn:Hx; simpl; rewrite IH; [reflexivity|].
  rewrite (Hq x Hx). now destruct (select p l).
Qed.

Lemma walk_directory_filter (path root : Path) (ignore : list string)
    (prefix : string) (listing : option exn) (q : node * walker -> bool)
    (l : list (node * walker)) :
  (forall x, q x = false -> keep path root ignore (fst x) = Ok false) ->
  walk_directory path root ignore prefix listing (filter q l)
  = walk_directory path root ignore prefix listing l.
Proof.
  intros Hq. unfold walk_directory, list_entries.
  destruct listing; [reflexivity|]. now rewrite select_filter.
Qed.

(** ** Trees that the walk cannot tell apart *)

Lemma strip_symlinks_observed (c : node) :
  name (strip_symlinks c) = name c /\
  is_symlink (strip_symlinks c) = is_symlink c /\
  is_file (strip_symlinks c) = is_file c /\
  is_dir (strip_symlinks c) = is_dir c /\
  read_line_count (strip_symlinks c) = read_line_count c.
Proof. destruct c; simpl; auto. Qed.

Lemma without_observed (d : string -> bool) (rel : Path) (c : node) :
  name (without d rel c) = name c /\
  is_symlink (without d rel c) = is_symlink c /\
  is_file (without d rel c) = is_file c /\
  is_dir (without d rel c) = is_dir c /\
  read_line_count (without d rel c) = read_line_count c.
Proof. destruct c; simpl; auto. Qed.


Lemma match_patterns_prefix (rel pattern : string) (ignore : list string) :
  In pattern ignore ->
  endswith pattern "/" = true ->
  startswith rel (drop_last pattern) = true ->
  match_patterns rel ignore = true.
Proof.
  intros Hin He Hs. induction ignore as [|p ps IH]; [contradiction|].
  simpl. destruct Hin as [->|Hin].
  - now rewrite He, Hs.
  - destruct (endswith p "/" && startswith rel (drop_last p)); [reflexivity|].
    destruct (fnmatch rel p); auto.
Qed.

(** What the filter rejects, and what lies beneath it, may be removed from
    the tree. *)
Lemma walk_without (d : string -> bool) (root : Path) (ignore : list string)
    (n : node) :
  (forall s, d s = true -> match_patterns s ignore = true) ->
  forall rel prefix g,
    build_tree (without d rel n) root ignore (root ++ rel) prefix g
    = build_tree n root ignore (root ++ rel) prefix g.
Proof.
  intros Hd.
  induction n as [nm f|nm listing children IH|nm|nm t IH] using node_induction;
    intros rel prefix g; try reflexivity.
  cbn [without build_tree].
  rewrite <- (filter_pairs (fun c => negb (d (as_posix (rel ++ [name c]))))
                (fun e => build_tree e root ignore)).
  rewrite walk_directory_filter.
  - apply walk_directory_alike.
    induction IH as [|c cs Hc _ IHcs]; simpl; constructor; [|exact IHcs].
    destruct (without_observed d (rel ++ [name c]) c) as (Hn & Hs & Hf & Hdir & Hr).
    unfold alike; simpl. rewrite Hn. repeat split; auto.
    intros pre g0. unfold joinpath. rewrite <- app_assoc. apply Hc.
  - intros [e w] He. simpl in *. rewrite keep_under. unfold kept.
    apply negb_false_iff in He. rewrite (Hd _ He).
    now destruct (is_symlink e).
Qed.

(** ** One turn of the loop *)

Lemma heartbeat_counters (g : globals) :
  exists g', heartbeat g = (Ok tt, g') /\ same_counters g g'.
Proof.
  unfold heartbeat, same_counters.
  destruct ((file_count g mod 200 =? 0)%Z && (0 <? file_count g)%Z);
    eexists; split; try reflexivity; simpl; auto.
Qed.

Lemma visit_entry_file (path : Path) (prefix : string) (last : bool)
    (entry : node) (walk : walker) (lines : list string) (g : globals) :
  is_dir entry = false ->
  exists g',
    visit_entry path prefix last entry walk lines g
    = (Ok (lines ++ [(prefix ++ connector_of last ++ name entry)%string]), g') /\
    file_count g' = (file_count g + 1)%Z /\
    dir_count g' = dir_count g /\
    line_count g' = (line_count g + lines_of entry)%Z.
Proof.
  intros Hd. unfold visit_entry, lines_of, count_file. rewrite Hd.
  unfold bind at 1. unfold bind at 1. simpl.
  destruct (read_line_count entry) as [n|e]; unfold bind; simpl;
    match goal with
    | |- context [heartbeat ?g0] =>
        destruct (heartbeat_counters g0) as (g' & -> & Hf & Hdc & Hl)
    end; simpl in *; exists g'; repeat split; auto; lia.
Qed.

Lemma visit_entry_dir (path : Path) (prefix : string) (last : bool)
    (entry : node) (walk : walker) (lines : list string) (g : globals) :
  is_dir entry = true ->
  match walk (joinpath path (name entry)) (prefix ++ extension_of last)%string
             (snd (incr_dir_count g)) with
  | (Ok sub, g1) =>
      exists g',
        visit_entry path prefix last entry walk lines g
        = (Ok ((lines ++ [(prefix ++ connector_of last ++ name entry)%string])
               ++ sub), g') /\
        same_counters g1 g'
  | (Raise e, g1) =>
      visit_entry path prefix last entry walk lines g = (Raise e, g1)
  end.
Proof.
  intros Hd. unfold visit_entry. rewrite Hd.
  unfold bind at 1. unfold bind at 1. simpl.
  unfold extension_of, connector_of.
  destruct (walk _ _ _) as [[sub|e] g1] eqn:Hw; unfold bind; simpl;
    rewrite Hw; simpl; [|reflexivity].
  destruct (heartbeat_counters g1) as (g' & -> & Hsame).
  exists g'. split; [reflexivity|exact Hsame].
Qed.

Lemma bind_Ok {A B} (c : comp A) (k : A -> comp B) (g g' : globals) (b : B) :
  bind c k g = (Ok b, g') ->
  exists a g1, c g = (Ok a, g1) /\ k a g1 = (Ok b, g').
Proof.
  unfold bind. destruct (c g) as [[a|e] g1]; [|discriminate].
  intros H. now exists a, g1.
Qed.

(** ** The counters after a walk *)

Lemma sumZ_perm (l1 l2 : list Z) : Permutation l1 l2 -> sumZ l1 = sumZ l2.
Proof. induction 1; simpl; lia. Qed.

Lemma sumZ_filter {A} (f : A -> bool) (h : A -> Z) (l : list A) :
  sumZ (map h (filter f l)) = sumZ (map (fun x => if f x then h x else 0%Z) l).
Proof.
  induction l as [|x l IH]; simpl; [reflexivity|].
  destruct (f x); simpl; lia.
Qed.

Lemma entries_of_Forall (ignore : list string) (rel : Path) (Q : node -> Prop)
    (children : list node) :
  Forall Q children -> Forall Q (entries_of ignore rel children).
Proof.
  intros H. apply sorted_Forall. rewrite Forall_forall in *.
  intros x Hx. apply filter_In in Hx. now apply H.
Qed.

Lemma for_entries_counts (root rel : Path) (ignore : list string)
    (prefix : string) (len : nat) (es : list node) :
  Forall (fun c => forall pre g lines g',
            build_tree c root ignore (root ++ rel ++ [name c]) pre g
            = (Ok lines, g') ->
            (file_count g' + dir_count g'
             = file_count g + dir_count g + visited ignore (rel ++ [name c]) c)%Z)
         es ->
  forall index lines g out g',
    for_entries (root ++ rel) prefix len index
      (map (fun e => (e, build_tree e root ignore)) es) lines g = (Ok out, g') ->
    (file_count g' + dir_count g'
     = file_count g + dir_count g + sumZ (map (visits ignore rel) es))%Z.
Proof.
  induction 1 as [|c es Hc _ IH]; intros index lines g out g' Hrun.
  - injection Hrun as _ <-. simpl. lia.
  - cbn [map for_entries] in Hrun.
    apply bind_Ok in Hrun as (ls & g1 & Hvisit & Hrest).
    apply IH in Hrest. cbn [map sumZ fold_right]. fold (sumZ (map (visits ignore rel) es)).
    unfold visits at 1.
    destruct (is_dir c) eqn:Hd.
    + pose proof (visit_entry_dir (root ++ rel) prefix
                    (Nat.eqb index (len - 1)) c (build_tree c root ignore)
                    lines g Hd) as Hv.
      unfold joinpath in Hv. rewrite <- app_assoc in Hv.
      destruct (build_tree c root ignore _ _ _) as [[sub|e] g0] eqn:Hw.
      * destruct Hv as (g2 & Hv & Hf & Hdc & _).
        rewrite Hv in Hvisit. injection Hvisit as _ <-.
        apply Hc in Hw. simpl in Hw. lia.
      * rewrite Hv in Hvisit. discriminate.
    + destruct (visit_entry_file (root ++ rel) prefix
                  (Nat.eqb index (len - 1)) c (build_tree c root ignore)
                  lines g Hd) as (g2 & Hv & Hf & Hdc & _).
      rewrite Hv in Hvisit. injection Hvisit as _ <-. lia.
Qed.

Lemma walk_counts (root : Path) (ignore : list string) (n : node) :
  forall rel prefix g lines g',
    build_tree n root ignore (root ++ rel) prefix g = (Ok lines, g') ->
    (file_count g' + dir_count g'
     = file_count g + dir_count g + visited ignore rel n)%Z.
Proof.
  induction n as [nm d|nm listing children IH|nm|nm t IH] using node_induction;
    intros rel prefix g lines g' Hrun; try discriminate.
  - destruct listing as [e|].
    + destruct e; try discriminate. injection Hrun as _ <-. simpl. lia.
    + rewrite build_tree_listed in Hrun.
      apply for_entries_counts in Hrun.
      * rewrite Hrun. cbn [visited]. f_equal.
        unfold entries_of.
        rewrite (sumZ_perm _ _ (Permutation_map _ (sorted_perm sort_key _))).
        apply sumZ_filter.
      * apply entries_of_Forall.
        eapply Forall_impl; [|exact IH]. intros c Hc pre g0 ls g0' Hw.
        eapply Hc. exact Hw.
  - simpl in Hrun. apply IH in Hrun. exact Hrun.
Qed.


(** ** The order of the entries *)






Section SortedBy.
Context {A : Type} (key : A -> bool * string).


End SortedBy.


(** ** The lines of a walk *)


(** ** Exceptions that leave the walk *)

Lemma bind_Raise {A B} (c : comp A) (k : A -> comp B) (g g' : globals)
    (e : exn) :
  bind c k g = (Raise e, g') ->
  c g = (Raise e, g') \/ exists a g1, c g = (Ok a, g1) /\ k a g1 = (Raise e, g').
Proof.
  unfold bind. destruct (c g) as [[a|e0] g1]; intros H.
  - right. now exists a, g1.
  - left. now injection H as -> ->.
Qed.

Lemma list_entries_Forall (path root : Path) (ignore : list string)
    (listing : option exn) (Q : node * walker -> Prop)
    (kids entries : list (node * walker)) :
  list_entries path root ignore listing kids = Ok entries ->
  Forall Q kids -> Forall Q entries.
Proof.
  unfold list_entries. destruct listing; [discriminate|].
  destruct (select _ _) as [es|] eqn:Hsel; [|discriminate].
  intros [= <-] H. apply sorted_Forall. eapply select_Forall; eassumption.
Qed.

Lemma for_entries_Raise (path : Path) (prefix : string) (len : nat)
    (entries : list (node * walker)) :
  Forall (fun ew => forall p pre g e g',
            snd ew p pre g = (Raise e, g') -> is_PermissionError e = false)
         entries ->
  forall index lines g e g',
    for_entries path prefix len index entries lines g = (Raise e, g') ->
    is_PermissionError e = false.
Proof.
  induction 1 as [|[c w] es Hw _ IH]; intros index lines g e g' Hrun;
    [discriminate|].
  cbn [for_entries] in Hrun.
  apply bind_Raise in Hrun as [Hvisit|(ls & g1 & _ & Hrest)];
    [|now apply IH in Hrest].
  destruct (is_dir c) eqn:Hd.
  - pose proof (visit_entry_dir path prefix (Nat.eqb index (len - 1)) c w
                  lines g Hd) as Hv.
    destruct (w _ _ _) as [[sub|e0] g0] eqn:Hwalk.
    + destruct Hv as (g2 & Hv & _). rewrite Hv in Hvisit. discriminate.
    + rewrite Hv in Hvisit. injection Hvisit as <- _.
      eapply Hw. exact Hwalk.
  - destruct (visit_entry_file path prefix (Nat.eqb index (len - 1)) c w
                lines g Hd) as (g2 & Hv & _).
    rewrite Hv in Hvisit. discriminate.
Qed.

(** No permission error leaves [build_tree]. *)
Lemma build_tree_Raise (n : node) (root : Path) (ignore : list string) :
  forall path prefix g e g',
    build_tree n root ignore path prefix g = (Raise e, g') ->
    is_PermissionError e = false.
Proof.
  induction n as [nm d|nm listing children IH|nm|nm t IH] using node_induction;
    intros path prefix g e g' Hrun.
  - now injection Hrun as <- _.
  - cbn [build_tree] in Hrun. unfold walk_directory in Hrun.
    destruct (list_entries _ _ _ _ _) as [entries|e0] eqn:Hentries.
    + eapply for_entries_Raise; [|exact Hrun].
      eapply list_entries_Forall; [exact Hentries|].
      clear Hentries Hrun.
      induction IH as [|c cs Hc _ IHcs]; simpl; constructor; auto.
    + destruct (is_PermissionError e0) eqn:He0; [discriminate|].
      now injection Hrun as <- _.
  - now injection Hrun as <- _.
  - eapply IH. exact Hrun.
Qed.

(** The loop raises as soon as the walk of one of its directories does. *)
Lemma for_entries_fails (root : Path) (ignore : list string) (path : Path)
    (prefix : string) (len : nat) (c : node) (es : list node) :
  In c es -> is_dir c = true ->
  (forall pre g, exists e g',
      build_tree c root ignore (joinpath path (name c)) pre g = (Raise e, g')) ->
  forall index lines g, exists e g',
    for_entries path prefix len index
      (map (fun e => (e, build_tree e root ignore)) es) lines g = (Raise e, g').
Proof.
  intros Hin Hd Hfail. induction es as [|x es IH]; [contradiction|].
  intros index lines g. cbn [map for_entries]. unfold bind.
  destruct (visit_entry _ _ _ x _ lines g) as [[ls|e] g1] eqn:Hvisit;
    [|now exists e, g1].
  destruct Hin as [->|Hin]; [|now apply IH].
  pose proof (visit_entry_dir path prefix (Nat.eqb index (len - 1)) c
                (build_tree c root ignore) lines g Hd) as Hv.
  destruct (Hfail (prefix ++ extension_of (Nat.eqb index (len - 1)))%string
              (snd (incr_dir_count g))) as (e & g2 & Hw).
  rewrite Hw in Hv. rewrite Hv in Hvisit. discriminate.
Qed.

Lemma walk_fails (root : Path) (ignore : list string) (n : node) :
  forall rel,
    listing_fails ignore rel n = true ->
    forall prefix g, exists e g',
      build_tree n root ignore (root ++ rel) prefix g = (Raise e, g').
Proof.
  induction n as [nm d|nm listing children IH|nm|nm t IH] using node_induction;
    intros rel Hfail prefix g.
  - now exists NotADirectoryError, g.
  - destruct listing as [e|].
    + cbn [listing_fails] in Hfail. apply negb_true_iff in Hfail.
      exists e, g. cbn [build_tree]. unfold walk_directory, list_entries.
      now rewrite Hfail.
    + rewrite build_tree_listed. cbn [listing_fails] in Hfail.
      apply existsb_exists in Hfail as (c & Hin & Hc).
      apply andb_true_iff in Hc as [Hc Hcf].
      apply andb_true_iff in Hc as [Hk Hd].
      apply for_entries_fails with (c := c); [|exact Hd|].
      * unfold entries_of.
        eapply Permutation_in; [symmetry; apply sorted_perm|].
        apply filter_In. now split.
      * intros pre g0. rewrite Forall_forall in IH.
        unfold joinpath. rewrite <- app_assoc. now apply IH.
  - now exists FileNotFoundError, g.
  - apply IH. exact Hfail.
Qed.

(** ** Patterns *)

Lemma match_patterns_glob (rel pattern : string) (patterns : list string) :
  In pattern patterns -> fnmatch rel pattern = true ->
  match_patterns rel patterns = true.
Proof.
  intros Hin Hm. induction patterns as [|p ps IH]; [contradiction|].
  simpl. destruct (endswith p "/" && startswith rel (drop_last p));
    [reflexivity|].
  destruct Hin as [->|Hin]; [now rewrite Hm|].
  destruct (fnmatch rel p); auto.
Qed.

Lemma chars_app (a b : string) : chars (a ++ b) = chars a ++ chars b.
Proof. induction a as [|c a IH]; simpl; [reflexivity|]. now f_equal. Qed.

(** A string that ends with a slash is its [[:-1]] followed by the slash. *)
Lemma endswith_slash (s : string) :
  endswith s "/" = true -> s = (drop_last s ++ "/")%string.
Proof.
  unfold endswith, drop_last.
  induction s as [|c s IH]; [discriminate|].
  cbn [String.length Nat.leb]. rewrite Nat.sub_succ, Nat.sub_0_r.
  destruct s as [|c' s'].
  - simpl. destruct (Ascii.eqb_spec c "/"); [now subst|discriminate].
  - intros H. cbn [String.length] in *.
    rewrite Nat.sub_succ, Nat.sub_0_r in IH.
    cbn [substring String.append]. f_equal.
    apply IH. exact H.
Qed.

Lemma find_char_nth (c : ascii) (s : list ascii) (k : nat) :
  find_char c s = Some k -> nth_error s k = Some c.
Proof.
  revert k. induction s as [|x s IH]; intros k; simpl; [discriminate|].
  destruct (Ascii.eqb_spec x c) as [->|_].
  - now intros [= <-].
  - destruct (find_char c s) as [k'|]; [|discriminate].
    intros [= <-]. now apply IH.
Qed.

Lemma bracket_end_nth (r : list ascii) (j : nat) :
  bracket_end r = Some j -> nth_error r j = Some "]"%char.
Proof.
  unfold bracket_end.
  set (j0 := match r with "!"%char :: _ => 1 | _ => 0 end).
  set (j1 := match nth_error r j0 with Some "]"%char => S j0 | _ => j0 end).
  destruct (find_char "]" (skipn j1 r)) as [k|] eqn:Hk; [|discriminate].
  intros [= <-]. apply find_char_nth in Hk.
  now rewrite nth_error_skipn in Hk.
Qed.

(** The last character of a pattern, when it is a slash, is translated as
    itself: it cannot lie inside a character set, which ends at a closing
    bracket. *)
Lemma translate_from_slash (p : list ascii) :
  forall skip res, skip <= List.length p ->
    exists res', translate_from skip (p ++ ["/"%char]) res = res' ++ [LIT "/"].
Proof.
  induction p as [|c p IH]; intros skip res Hskip.
  - assert (skip = 0) as -> by (simpl in Hskip; lia). now exists res.
  - cbn [app translate_from]. destruct skip as [|k].
    + destruct (Ascii.eqb c "*").
      { destruct (rev res) as [|[] ?]; apply IH; lia. }
      destruct (Ascii.eqb c "?"); [apply IH; lia|].
      destruct (Ascii.eqb c "["); [|apply IH; lia].
      destruct (bracket_end (p ++ ["/"%char])) as [j|] eqn:Hj; [|apply IH; lia].
      apply IH. apply bracket_end_nth in Hj.
      destruct (Nat.lt_ge_cases j (List.length p)) as [Hlt|Hge]; [lia|].
      rewrite nth_error_app2 in Hj by exact Hge.
      destruct (j - List.length p) as [|[|m]]; simpl in Hj; discriminate.
    + apply IH. simpl in Hskip. lia.
Qed.

Lemma match_tokens_star (ts : list token) (s : list ascii) :
  match_tokens (STAR :: ts) s
  = match_tokens ts s ||
    match s with
    | [] => false
    | _ :: s' => match_tokens (STAR :: ts) s'
    end.
Proof. destruct s; reflexivity. Qed.

(** A text that matches a pattern whose last token is a literal ends with
    that character. *)
Lemma match_tokens_last (c : ascii) (ts : list token) :
  forall s, match_tokens (ts ++ [LIT c]) s = true -> exists s', s = s' ++ [c].
Proof.
  induction ts as [|t ts IH]; intros s.
  - destruct s as [|x [|y s]]; simpl; try discriminate.
    + destruct (Ascii.eqb_spec x c) as [->|]; [|discriminate].
      intros _. now exists [].
    + now rewrite andb_false_r.
  - destruct t as [| |c0|stuff]; cbn [app].
    + induction s as [|x s IHs]; rewrite match_tokens_star; intros H;
        apply orb_true_iff in H as [H|H]; auto; try discriminate.
      destruct (IHs H) as (s' & ->). now exists (x :: s').
    + destruct s as [|x s]; simpl; [discriminate|].
      intros H. destruct (IH s H) as (s' & ->). now exists (x :: s').
    + destruct s as [|x s]; simpl; [discriminate|].
      intros H. apply andb_true_iff in H as [_ H].
      destruct (IH s H) as (s' & ->). now exists (x :: s').
    + destruct s as [|x s]; simpl; [discriminate|].
      intros H. apply andb_true_iff in H as [_ H].
      destruct (IH s H) as (s' & ->). now exists (x :: s').
Qed.

Lemma fnmatch_slash (rel d : string) :
  fnmatch rel (d ++ "/") = true -> exists s', chars rel = s' ++ ["/"%char].
Proof.
  unfold fnmatch, translate. rewrite chars_app. simpl (chars "/").
  destruct (translate_from_slash (chars d) 0 [] (Nat.le_0_l _)) as (ts & ->).
  apply match_tokens_last.
Qed.

(** The relative path that [as_posix] prints does not end with a slash. *)
Lemma last_app_nonempty {A} (l1 l2 : list A) (d : A) :
  l2 <> [] -> last (l1 ++ l2) d = last l2 d.
Proof.
  intros H. induction l1 as [|x l1 IH]; [reflexivity|].
  simpl. destruct (l1 ++ l2) eqn:E; [|exact IH].
  apply app_eq_nil in E as [_ E]. contradiction.
Qed.

Lemma is_name_last (s : string) :
  is_name s = true -> chars s <> [] /\ last (chars s) "."%char <> "/"%char.
Proof.
  unfold is_name. intros H. apply andb_true_iff in H as [Hne Hall].
  split.
  - destruct s; [discriminate|]. simpl. discriminate.
  - clear Hne. induction (chars s) as [|x l IH]; [discriminate|].
    simpl in Hall. apply andb_true_iff in Hall as [Hx Hall].
    destruct l as [|y l].
    + simpl. intros ->. discriminate.
    + now apply IH.
Qed.

Lemma as_posix_last (relp : Path) :
  forallb is_name relp = true ->
  chars (as_posix relp) <> [] /\
  last (chars (as_posix relp)) "."%char <> "/"%char.
Proof.
  destruct relp as [|x relp]; [intros _; simpl; split; discriminate|].
  unfold as_posix. revert x. induction relp as [|y relp IH]; intros x H.
  - simpl in H. rewrite andb_true_r in H. now apply is_name_last.
  - cbn [forallb] in H. apply andb_true_iff in H as [Hx H].
    destruct (IH y H) as [Hne Hlast].
    cbn [String.concat]. rewrite !chars_app. simpl (chars "/").
    split.
    + intros E. apply app_eq_nil in E as [_ E]. discriminate.
    + rewrite last_app_nonempty by discriminate.
      change ("/"%char :: chars (String.concat "/" (y :: relp)))
        with (["/"%char] ++ chars (String.concat "/" (y :: relp))).
      now rewrite last_app_nonempty.
Qed.

Lemma fnmatch_slash_never (relp : Path) (d : string) :
  forallb is_name relp = true ->
  fnmatch (as_posix relp) (d ++ "/") = false.
Proof.
  intros H. destruct (fnmatch _ _) eqn:E; [|reflexivity].
  apply fnmatch_slash in E as (s' & E).
  destruct (as_posix_last relp H) as [_ Hlast].
  rewrite E, last_last in Hlast. contradiction.
Qed.

Lemma prefix_refl (s : string) : String.prefix s s = true.
Proof.
  induction s as [|c s IH]; simpl; [reflexivity|].
  now destruct (ascii_dec c c).
Qed.

Lemma scan_Ok (root : Path) (root_node : node) (ignore : list string)
    (g g' : globals) (lines : list string) :
  scan root root_node ignore g = (Ok lines, g') ->
  exists sub,
    build_tree root_node root ignore (root ++ []) "" g = (Ok sub, g') /\
    lines = [path_name root] ++ sub.
Proof.
  unfold scan. intros H. apply bind_Ok in H as (sub & g1 & Hw & Hr).
  injection Hr as <- <-. exists sub. now rewrite app_nil_r.
Qed.

(** ** The properties of the specification *)

(** C1, as amended.  For every list of ignore patterns that contains the
    glob [*.log] and every path whose root-relative path reads
    [build/output.log], [is_ignored] returns true: the star of [fnmatch]
    matches any run of characters, separators included. *)
Theorem star_crosses_separators (patterns : list string)
    (path root relp : Path) :
  In "*.log" patterns ->
  relative_to path root = Ok relp ->
  as_posix relp = "build/output.log" ->
  is_ignored path patterns root = Ok true.
Proof.
  intros Hin Hrel Hposix. unfold is_ignored. rewrite Hrel, Hposix.
  f_equal. apply match_patterns_glob with (pattern := "*.log"); [exact Hin|].
  reflexivity.
Qed.

(** C2, as amended.  A visited entry that is not a directory adds one to
    [file_count] and nothing to [dir_count], and the loop goes on with the
    next entry.  When opening or reading it raises an exception it adds
    nothing to [line_count].  When it can be read it adds the number of
    lines of its text decoded with the undecodable bytes dropped, whether
    its bytes are well-formed UTF-8 or not. *)
Theorem unreadable_file_counts_no_lines (path : Path) (prefix : string)
    (len index : nat) (entry : node) (walk : walker)
    (rest : list (node * walker)) (lines : list string) (g : globals) :
  is_dir entry = false ->
  exists g',
    for_entries path prefix len index ((entry, walk) :: rest) lines g
    = for_entries path prefix len (S index) rest
        (lines ++ [(prefix ++ connector_of (Nat.eqb index (len - 1))
                           ++ name entry)%string]) g' /\
    file_count g' = (file_count g + 1)%Z /\
    dir_count g' = dir_count g /\
    (forall e, read_line_count entry = Raise e ->
               line_count g' = line_count g) /\
    (forall nm content, entry = File nm (Bytes content) ->
               line_count g' = (line_count g + count_lines content)%Z).
Proof.
  intros Hd.
  destruct (visit_entry_file path prefix (Nat.eqb index (len - 1)) entry walk
              lines g Hd) as (g' & Hv & Hf & Hdc & Hl).
  exists g'. cbn [for_entries]. unfold bind at 1. rewrite Hv.
  repeat split; auto.
  - intros e He. rewrite Hl. unfold lines_of. rewrite He. lia.
  - intros nm content ->. rewrite Hl. reflexivity.
Qed.

(** C3.  For a fixed tree and a fixed list of ignore patterns, two scans
    that both start with the three counters at zero give the same outcome,
    the same tree lines when they return, and leave the same values in
    [file_count], [dir_count] and [line_count], whatever the console showed
    before. *)
Theorem scan_deterministic (root : Path) (root_node : node)
    (ignore : list string) (g1 g2 : globals) :
  file_count g1 = 0%Z -> dir_count g1 = 0%Z -> line_count g1 = 0%Z ->
  file_count g2 = 0%Z -> dir_count g2 = 0%Z -> line_count g2 = 0%Z ->
  fst (scan root root_node ignore g1) = fst (scan root root_node ignore g2) /\
  file_count (snd (scan root root_node ignore g1))
  = file_count (snd (scan root root_node ignore g2)) /\
  dir_count (snd (scan root root_node ignore g1))
  = dir_count (snd (scan root root_node ignore g2)) /\
  line_count (snd (scan root root_node ignore g1))
  = line_count (snd (scan root root_node ignore g2)).
Proof.
  intros Hf1 Hd1 Hl1 Hf2 Hd2 Hl2.
  assert (Hsame : same_counters g1 g2) by (unfold same_counters; lia).
  assert (Hagree : agree (scan root root_node ignore) (scan root root_node ignore)).
  { unfold scan. apply agree_bind; [apply agree_build_tree|].
    intros sub. apply agree_ret. }
  destruct (Hagree g1 g2 Hsame) as [Hv Hc]. split; [exact Hv|exact Hc].
Qed.


(** C5.  For every directory-prefix pattern (one that ends with a slash)
    in the ignore list, the scan is the scan of the tree from which the
    entry that the pattern names (the one whose root-relative path is the
    pattern without its slash) has been removed with everything beneath
    it: the same lines, and the same counters.  Nothing of that subtree
    gives a line or counts. *)
Theorem directory_pattern_excludes_subtree (pattern : string)
    (ignore : list string) (root : Path) (root_node : node) (g : globals) :
  In pattern ignore ->
  endswith pattern "/" = true ->
  scan root (without (String.eqb (drop_last pattern)) [] root_node) ignore g
  = scan root root_node ignore g.
Proof.
  intros Hin Hend. unfold scan. apply bind_ext; [|reflexivity].
  rewrite <- (app_nil_r root) at 2 4.
  apply walk_without.
  intros s Hs. apply String.eqb_eq in Hs. subst s.
  apply match_patterns_prefix with (pattern := pattern); auto.
  apply prefix_refl.
Qed.

(** C6.  For every pattern that ends with a slash and every path (its
    parts relative to the root being names), [is_ignored] with that
    pattern returns true exactly when the root-relative path, as one
    string, starts with the pattern without its last character. *)
Theorem directory_pattern_is_prefix_test (pattern : string)
    (path root relp : Path) :
  endswith pattern "/" = true ->
  relative_to path root = Ok relp ->
  forallb is_name relp = true ->
  is_ignored path [pattern] root
  = Ok (startswith (as_posix relp) (drop_last pattern)).
Proof.
  intros Hend Hrel Hnames. unfold is_ignored. rewrite Hrel. f_equal.
  cbn [match_patterns]. rewrite Hend. cbn [andb].
  destruct (startswith (as_posix relp) (drop_last pattern)); [reflexivity|].
  rewrite (endswith_slash pattern Hend).
  now rewrite fnmatch_slash_never.
Qed.

(** C7.  The walk of a tree is the walk of the tree without its symbolic
    links, whatever they resolve to: the same lines, the same counters, the
    same console.  No link is recursed into, counted, or given a line. *)
Theorem symlinks_are_skipped (n : node) (root : Path) (ignore : list string)
    (path : Path) (prefix : string) (g : globals) :
  build_tree (strip_symlinks n) root ignore path prefix g
  = build_tree n root ignore path prefix g.
Proof.
  revert path prefix g;
    induction n as [nm d|nm listing children IH|nm|nm t IH] using node_induction;
    intros path prefix g; try reflexivity.
  cbn [strip_symlinks build_tree].
  rewrite <- (filter_pairs (fun c => negb (is_symlink c))
                (fun e => build_tree e root ignore)).
  rewrite walk_directory_filter.
  - apply walk_directory_alike.
    induction IH as [|c cs Hc _ IHcs]; simpl; constructor; [|exact IHcs].
    destruct (strip_symlinks_observed c) as (Hn & Hs & Hf & Hd & Hr).
    unfold alike; simpl. rewrite Hn. repeat split; auto.
  - intros [e w] He. simpl in *. unfold keep.
    now destruct (is_symlink e).
Qed.



(** C10.  A directory whose listing raises anything but a permission
    error makes [build_tree] raise that exception; and when the walk
    from the root meets such a directory, the exception leaves [main],
    which then writes no report. *)
Theorem other_listing_errors_abort (r : run) (g g0 : globals) (nm : string)
    (e : exn) (children : list node) (path : Path) (prefix : string) :
  is_PermissionError e = false ->
  build_tree (Dir nm (Some e) children) (cwd r) (ignore_patterns r) path prefix g0
  = (Raise e, g0) /\
  (listing_fails (ignore_patterns r) [] (cwd_node r) = true ->
   exists e' g', main r g = (Raise e', g') /\ is_PermissionError e' = false).
Proof.
  intros He. split.
  - cbn [build_tree]. unfold walk_directory, list_entries. now rewrite He.
  - intros Hfail. unfold main, scan.
    set (g1 := snd (print (Starting (List.length (ignore_patterns r)) (cwd r)) g)).
    destruct (walk_fails (cwd r) (ignore_patterns r) (cwd_node r) [] Hfail "" g1)
      as (e' & g' & Hw).
    exists e', g'. rewrite app_nil_r in Hw. split.
    + unfold bind, print. fold g1. simpl. subst g1. unfold print in Hw.
      simpl in Hw. now rewrite Hw.
    + eapply build_tree_Raise. exact Hw.
Qed.

(** ** Further properties of the walk *)

(** the four quantities that a complete walk of [n] fixes: the growth of
    the three counters, and the number of lines *)
Lemma for_entries_tally (root rel : Path) (ignore : list string)
    (prefix : string) (len : nat) (es : list node) :
  Forall (fun c => forall pre g lines g',
            build_tree c root ignore (root ++ rel ++ [name c]) pre g
            = (Ok lines, g') ->
            file_count g' = (file_count g
              + tally (fun _ => 1) 0 ignore (rel ++ [name c]) c)%Z /\
            dir_count g' = (dir_count g
              + tally (fun _ => 0) 1 ignore (rel ++ [name c]) c)%Z /\
            line_count g' = (line_count g
              + tally lines_of 0 ignore (rel ++ [name c]) c)%Z /\
            Z.of_nat (List.length lines)
            = tally (fun _ => 1) 1 ignore (rel ++ [name c]) c)%Z
         es ->
  forall index lines g out g',
    for_entries (root ++ rel) prefix len index
      (map (fun e => (e, build_tree e root ignore)) es) lines g = (Ok out, g') ->
    file_count g' = (file_count g + sumZ (map (fun c =>
        if is_dir c then 0 + tally (fun _ => 1) 0 ignore (rel ++ [name c]) c
        else 1) es))%Z /\
    dir_count g' = (dir_count g + sumZ (map (fun c =>
        if is_dir c then 1 + tally (fun _ => 0) 1 ignore (rel ++ [name c]) c
        else 0) es))%Z /\
    line_count g' = (line_count g + sumZ (map (fun c =>
        if is_dir c then 0 + tally lines_of 0 ignore (rel ++ [name c]) c
        else lines_of c) es))%Z /\
    Z.of_nat (List.length out) = (Z.of_nat (List.length lines) + sumZ (map (fun c =>
        if is_dir c then 1 + tally (fun _ => 1) 1 ignore (rel ++ [name c]) c
        else 1) es))%Z.
Proof.
  induction 1 as [|c es Hc _ IH]; intros index lines g out g' Hrun.
  - injection Hrun as <- <-. simpl. repeat split; lia.
  - cbn [map for_entries] in Hrun.
    apply bind_Ok in Hrun as (ls & g1 & Hvisit & Hrest).
    apply IH in Hrest as (Hf & Hd & Hl & Hn). cbn [map sumZ fold_right].
    fold (sumZ (map (fun c => if is_dir c
      then (0 + tally (fun _ => 1) 0 ignore (rel ++ [name c]) c)%Z else 1%Z) es)).
    fold (sumZ (map (fun c => if is_dir c
      then (1 + tally (fun _ => 0) 1 ignore (rel ++ [name c]) c)%Z else 0%Z) es)).
    fold (sumZ (map (fun c => if is_dir c
      then (0 + tally lines_of 0 ignore (rel ++ [name c]) c)%Z else lines_of c) es)).
    fold (sumZ (map (fun c => if is_dir c
      then (1 + tally (fun _ => 1) 1 ignore (rel ++ [name c]) c)%Z else 1%Z) es)).
    destruct (is_dir c) eqn:Hdir.
    + pose proof (visit_entry_dir (root ++ rel) prefix
                    (Nat.eqb index (len - 1)) c (build_tree c root ignore)
                    lines g Hdir) as Hv.
      unfold joinpath in Hv. rewrite <- app_assoc in Hv.
      destruct (build_tree c root ignore _ _ _) as [[sub|e] g0] eqn:Hw.
      * destruct Hv as (g2 & Hv & Hf2 & Hd2 & Hl2).
        rewrite Hv in Hvisit. injection Hvisit as <- <-.
        apply Hc in Hw as (Hf0 & Hd0 & Hl0 & Hn0).
        cbn [incr_dir_count snd file_count dir_count line_count] in Hf0, Hd0, Hl0.
        rewrite !length_app in Hn. cbn [List.length] in Hn.
        repeat split; lia.
      * rewrite Hv in Hvisit. discriminate.
    + destruct (visit_entry_file (root ++ rel) prefix
                  (Nat.eqb index (len - 1)) c (build_tree c root ignore)
                  lines g Hdir) as (g2 & Hv & Hf2 & Hd2 & Hl2).
      rewrite Hv in Hvisit. injection Hvisit as <- <-.
      rewrite !length_app in Hn. cbn [List.length] in Hn.
      repeat split; lia.
Qed.

Lemma tally_entries (file_w : node -> Z) (dir_w : Z) (ignore : list string)
    (rel : Path) (children : list node) :
  sumZ (map (fun c => if is_dir c
                      then (dir_w + tally file_w dir_w ignore (rel ++ [name c]) c)%Z
                      else file_w c)
            (entries_of ignore rel children))
  = tally file_w dir_w ignore rel (Dir "" None children).
Proof.
  cbn [tally]. unfold entries_of.
  rewrite (sumZ_perm _ _ (Permutation_map _ (sorted_perm sort_key _))).
  apply sumZ_filter.
Qed.

Lemma walk_tally (root : Path) (ignore : list string) (n : node) :
  forall rel prefix g lines g',
    build_tree n root ignore (root ++ rel) prefix g = (Ok lines, g') ->
    file_count g' = (file_count g + tally (fun _ => 1) 0 ignore rel n)%Z /\
    dir_count g' = (dir_count g + tally (fun _ => 0) 1 ignore rel n)%Z /\
    line_count g' = (line_count g + tally lines_of 0 ignore rel n)%Z /\
    Z.of_nat (List.length lines) = tally (fun _ => 1%Z) 1 ignore rel n.
Proof.
  induction n as [nm d|nm listing children IH|nm|nm t IH] using node_induction;
    intros rel prefix g lines g' Hrun; try discriminate.
  - destruct listing as [e|].
    + destruct e; try discriminate. injection Hrun as <- <-. simpl.
      repeat split; lia.
    + rewrite build_tree_listed in Hrun.
      apply for_entries_tally in Hrun.
      * rewrite (tally_entries (fun _ => 1%Z) 0),
                (tally_entries (fun _ => 0%Z) 1),
                (tally_entries lines_of 0),
                (tally_entries (fun _ => 1%Z) 1) in Hrun.
        exact Hrun.
      * apply entries_of_Forall.
        eapply Forall_impl; [|exact IH]. intros c Hc pre g0 ls g0' Hw.
        eapply Hc. exact Hw.
  - simpl in Hrun. apply IH in Hrun. exact Hrun.
Qed.

(** ** Counters and console only move forward *)

Lemma count_lines_from_bounds (pending : bool) (text : list N) :
  (0 <= count_lines_from pending text
   <= Z.of_nat (List.length text) + (if pending then 1 else 0))%Z.
Proof.
  revert pending.
  assert (H : forall n text, List.length text <= n -> forall pending,
             (0 <= count_lines_from pending text
              <= Z.of_nat (List.length text) + (if pending then 1 else 0))%Z).
  { induction n as [|n IH]; intros [|c text'] Hlen pending;
      try (simpl in Hlen; lia); try (simpl; destruct pending; lia).
    cbn [count_lines_from]. cbn [List.length] in *.
    destruct (c =? 10)%N.
    - pose proof (IH text' ltac:(lia) false) as H1.
      destruct pending; cbv iota in *; lia.
    - destruct (c =? 13)%N.
      + destruct text' as [|c' text'']; [destruct pending; lia|].
        cbn [List.length] in *.
        destruct (c' =? 10)%N.
        * pose proof (IH text'' ltac:(lia) false) as H1.
          destruct pending; cbv iota in *; lia.
        * pose proof (IH (c' :: text'') ltac:(simpl; lia) false) as H1.
          cbn [List.length] in H1.
          destruct pending; cbv iota in *; lia.
      + pose proof (IH text' ltac:(lia) true) as H1.
        destruct pending; cbv iota in *; lia. }
  intros pending. now apply (H (List.length text)).
Qed.

Lemma decode_utf8_ignore_length (bs : list byte) :
  List.length (decode_utf8_ignore bs) <= List.length bs.
Proof.
  assert (H : forall n bs, List.length bs <= n ->
             List.length (decode_utf8_ignore bs) <= List.length bs).
  { induction n as [|n IH]; intros [|b0 r0] Hlen;
      try (simpl; lia); try (simpl in Hlen; lia).
    simpl in Hlen.
    assert (H0 : List.length (decode_utf8_ignore r0) <= List.length r0)
      by (apply IH; lia).
    cbn [decode_utf8_ignore]. cbv zeta.
    destruct (Byte.to_N b0 <? 128)%N; [simpl; lia|].
    destruct ((194 <=? Byte.to_N b0)%N && (Byte.to_N b0 <=? 223)%N).
    { destruct r0 as [|b1 r1]; [simpl; lia|].
      destruct (is_continuation b1); [|simpl in *; lia].
      specialize (IH r1 ltac:(simpl in Hlen; lia)). simpl in *. lia. }
    destruct ((224 <=? Byte.to_N b0)%N && (Byte.to_N b0 <=? 239)%N).
    { destruct r0 as [|b1 [|b2 r2]]; try (simpl in *; lia).
      destruct (second_ok (Byte.to_N b0) b1 && is_continuation b2);
        [|simpl in *; lia].
      specialize (IH r2 ltac:(simpl in Hlen; lia)). simpl in *. lia. }
    destruct ((240 <=? Byte.to_N b0)%N && (Byte.to_N b0 <=? 244)%N);
      [|simpl in *; lia].
    destruct r0 as [|b1 [|b2 [|b3 r3]]]; try (simpl in *; lia).
    destruct (second_ok (Byte.to_N b0) b1 && is_continuation b2
              && is_continuation b3); [|simpl in *; lia].
    specialize (IH r3 ltac:(simpl in Hlen; lia)). simpl in *. lia. }
  now apply (H (List.length bs)).
Qed.

Lemma count_lines_bounds (content : list byte) :
  (0 <= count_lines content <= Z.of_nat (List.length content))%Z.
Proof.
  unfold count_lines.
  pose proof (count_lines_from_bounds false (decode_utf8_ignore content)) as H.
  pose proof (decode_utf8_ignore_length content). simpl in H. lia.
Qed.

Lemma lines_of_nonneg (entry : node) : (0 <= lines_of entry)%Z.
Proof.
  unfold lines_of.
  induction entry as [nm [content|e]|nm listing children _|nm|nm t IH]
    using node_induction; simpl; try lia;
    solve [apply count_lines_bounds | exact IH].
Qed.

Lemma progress_refl (g : globals) : progress g g.
Proof.
  unfold progress. repeat split; try lia.
  exists []. split; [now rewrite app_nil_r|constructor].
Qed.

Lemma is_heartbeat_widen (lo hi lo' hi' : Z) (m : message) :
  (lo' <= lo)%Z -> (hi <= hi')%Z ->
  is_heartbeat lo hi m -> is_heartbeat lo' hi' m.
Proof.
  intros Hlo Hhi (f & d & l & -> & Hpos & Hmod & Hb).
  exists f, d, l. repeat split; auto; lia.
Qed.

Lemma progress_trans (g1 g2 g3 : globals) :
  progress g1 g2 -> progress g2 g3 -> progress g1 g3.
Proof.
  intros (Hf1 & Hd1 & Hl1 & a1 & Hc1 & Ha1) (Hf2 & Hd2 & Hl2 & a2 & Hc2 & Ha2).
  unfold progress. repeat split; try lia.
  exists (a1 ++ a2). split.
  - now rewrite Hc2, Hc1, app_assoc.
  - apply Forall_app. split.
    + eapply Forall_impl; [|exact Ha1].
      intros m. apply is_heartbeat_widen; lia.
    + eapply Forall_impl; [|exact Ha2].
      intros m. apply is_heartbeat_widen; lia.
Qed.

Lemma steady_ret {A} (a : A) : steady (ret a).
Proof. intros g. apply progress_refl. Qed.

Lemma steady_raise {A} (e : exn) : steady (@raise A e).
Proof. intros g. apply progress_refl. Qed.

Lemma steady_bind {A B} (c : comp A) (k : A -> comp B) :
  steady c -> (forall a, steady (k a)) -> steady (bind c k).
Proof.
  intros Hc Hk g. unfold bind. specialize (Hc g).
  destruct (c g) as [[a|e] g1]; simpl in Hc; [|exact Hc].
  eapply progress_trans; [exact Hc|apply Hk].
Qed.

Lemma steady_counter (f d l : Z) :
  (0 <= f)%Z -> (0 <= d)%Z -> (0 <= l)%Z ->
  steady (fun g => (Ok tt, mkGlobals (file_count g + f) (dir_count g + d)
                             (line_count g + l) (console g))).
Proof.
  intros Hf Hd Hl g. unfold progress. simpl. repeat split; try lia.
  exists []. split; [now rewrite app_nil_r|constructor].
Qed.

Lemma steady_incr_file_count : steady incr_file_count.
Proof.
  intros g. pose proof (steady_counter 1 0 0 ltac:(lia) ltac:(lia) ltac:(lia) g) as H.
  unfold incr_file_count. simpl in *. now rewrite !Z.add_0_r in H.
Qed.

Lemma steady_incr_dir_count : steady incr_dir_count.
Proof.
  intros g. pose proof (steady_counter 0 1 0 ltac:(lia) ltac:(lia) ltac:(lia) g) as H.
  unfold incr_dir_count. simpl in *. now rewrite !Z.add_0_r in H.
Qed.

Lemma steady_count_file (entry : node) : steady (count_file entry).
Proof.
  unfold count_file. pose proof (lines_of_nonneg entry) as Hn.
  unfold lines_of in Hn.
  destruct (read_line_count entry) as [n|e]; [|apply steady_ret].
  intros g. pose proof (steady_counter 0 0 n ltac:(lia) ltac:(lia) Hn g) as H.
  unfold add_line_count. simpl in *. now rewrite !Z.add_0_r in H.
Qed.

Lemma steady_heartbeat : steady heartbeat.
Proof.
  intros g. unfold heartbeat.
  destruct ((file_count g mod 200 =? 0)%Z && (0 <? file_count g)%Z) eqn:Hc;
    [|apply progress_refl].
  apply andb_true_iff in Hc as [Hm Hp].
  apply Z.eqb_eq in Hm. apply Z.ltb_lt in Hp.
  unfold progress. simpl. repeat split; try lia.
  eexists. split; [reflexivity|].
  constructor; [|constructor].
  exists (file_count g), (dir_count g), (line_count g).
  repeat split; auto; lia.
Qed.

Lemma steady_visit_entry (path : Path) (prefix : string) (last : bool)
    (entry : node) (walk : walker) (lines : list string) :
  (forall p pre, steady (walk p pre)) ->
  steady (visit_entry path prefix last entry walk lines).
Proof.
  intros Hw. unfold visit_entry. apply steady_bind.
  - destruct (is_dir entry).
    + apply steady_bind; [apply steady_incr_dir_count|intros _].
      apply steady_bind; [apply Hw|intros sub; apply steady_ret].
    + apply steady_bind; [apply steady_incr_file_count|intros _].
      apply steady_bind; [apply steady_count_file|intros _; apply steady_ret].
  - intros ls. apply steady_bind; [apply steady_heartbeat|intros _; apply steady_ret].
Qed.

Lemma steady_for_entries (path : Path) (prefix : string) (len : nat)
    (entries : list (node * walker)) :
  Forall (fun ew => forall p pre, steady (snd ew p pre)) entries ->
  forall index lines, steady (for_entries path prefix len index entries lines).
Proof.
  induction 1 as [|[entry walk] rest Hw _ IH]; intros index lines; simpl.
  - apply steady_ret.
  - apply steady_bind; [now apply steady_visit_entry|intros ls; apply IH].
Qed.

Lemma steady_build_tree (n : node) (root : Path) (ignore : list string) :
  forall path prefix, steady (build_tree n root ignore path prefix).
Proof.
  induction n as [nm d|nm listing children IH|nm|nm t IH] using node_induction;
    intros path prefix; simpl.
  - apply steady_raise.
  - unfold walk_directory.
    destruct (list_entries _ _ _ _ _) as [entries|e] eqn:Hentries.
    + apply steady_for_entries.
      eapply list_entries_Forall; [exact Hentries|].
      clear Hentries.
      induction IH as [|c cs Hc _ IHcs]; simpl; constructor; auto.
    + destruct (is_PermissionError e); [apply steady_ret|apply steady_raise].
  - apply steady_raise.
  - apply IH.
Qed.

(** ** Connectors and indentation *)

Lemma for_entries_blocks_at (root : Path) (ignore : list string) (path : Path)
    (prefix : string) (len : nat) (es : list node) :
  forall index lines g out g',
    for_entries path prefix len index
      (map (fun e => (e, build_tree e root ignore)) es) lines g = (Ok out, g') ->
    exists blocks,
      out = lines ++ List.concat blocks /\
      List.length blocks = List.length es /\
      forall i e, nth_error es i = Some e ->
        exists block,
          nth_error blocks i = Some block /\
          block_at root ignore path prefix (Nat.eqb (index + i) (len - 1))
            e block.
Proof.
  induction es as [|c es IH]; intros index lines g out g' Hrun.
  - injection Hrun as <- _. exists []. split; [now rewrite app_nil_r|].
    split; [reflexivity|]. intros [|i] e He; discriminate.
  - cbn [map for_entries] in Hrun.
    apply bind_Ok in Hrun as (ls & g1 & Hvisit & Hrest).
    apply IH in Hrest as (blocks & -> & Hlen & Hnth).
    assert (Hhead : exists block,
               ls = lines ++ block /\
               block_at root ignore path prefix (Nat.eqb index (len - 1))
                 c block).
    { destruct (is_dir c) eqn:Hd.
      - pose proof (visit_entry_dir path prefix (Nat.eqb index (len - 1)) c
                      (build_tree c root ignore) lines g Hd) as Hv.
        destruct (build_tree c root ignore _ _ _) as [[sub|e] g0] eqn:Hw.
        + destruct Hv as (g2 & Hv & _).
          rewrite Hv in Hvisit. injection Hvisit as <- _.
          eexists. split; [now rewrite <- app_assoc|].
          exists sub. split; [reflexivity|]. rewrite Hd. eauto.
        + rewrite Hv in Hvisit. discriminate.
      - destruct (visit_entry_file path prefix (Nat.eqb index (len - 1)) c
                    (build_tree c root ignore) lines g Hd) as (g2 & Hv & _).
        rewrite Hv in Hvisit. injection Hvisit as <- _.
        eexists. split; [reflexivity|].
        exists []. split; [reflexivity|]. now rewrite Hd. }
    destruct Hhead as (block & -> & Hblock).
    exists (block :: blocks). split; [cbn [List.concat]; now rewrite app_assoc|].
    split; [simpl; now f_equal|].
    intros [|i] e He; simpl in He.
    + injection He as <-. exists block. rewrite Nat.add_0_r. now split.
    + destruct (Hnth i e He) as (blk & Hb & Hat).
      exists blk. split; [exact Hb|].
      now rewrite Nat.add_succ_r.
Qed.

Lemma prefix_app (p x : string) : String.prefix p (p ++ x) = true.
Proof.
  induction p as [|a p IH]; simpl; [now destruct x|].
  now destruct (ascii_dec a a).
Qed.

Lemma prefix_app_l (p e l : string) :
  String.prefix (p ++ e) l = true -> String.prefix p l = true.
Proof.
  revert l. induction p as [|a p IH]; intros l; [now destruct l|].
  destruct l as [|b l]; simpl; [discriminate|].
  destruct (ascii_dec a b); [apply IH|discriminate].
Qed.

Lemma for_entries_indented (path : Path) (prefix : string) (len : nat)
    (entries : list (node * walker)) :
  Forall (fun ew => forall p pre g lines g',
            snd ew p pre g = (Ok lines, g') ->
            Forall (fun l => startswith l pre = true) lines) entries ->
  forall index lines g out g',
    for_entries path prefix len index entries lines g = (Ok out, g') ->
    Forall (fun l => startswith l prefix = true) lines ->
    Forall (fun l => startswith l prefix = true) out.
Proof.
  induction 1 as [|[c w] es Hw _ IH]; intros index lines g out g' Hrun Hlines.
  - now injection Hrun as <- _.
  - cbn [for_entries] in Hrun.
    apply bind_Ok in Hrun as (ls & g1 & Hvisit & Hrest).
    eapply IH; [exact Hrest|].
    assert (Hline : Forall (fun l => startswith l prefix = true)
                      (lines ++ [(prefix ++ connector_of (Nat.eqb index (len - 1))
                                         ++ name c)%string])).
    { apply Forall_app. split; [exact Hlines|].
      constructor; [apply prefix_app|constructor]. }
    destruct (is_dir c) eqn:Hd.
    + pose proof (visit_entry_dir path prefix (Nat.eqb index (len - 1)) c w
                    lines g Hd) as Hv.
      destruct (w _ _ _) as [[sub|e] g0] eqn:Hwalk.
      * destruct Hv as (g2 & Hv & _).
        rewrite Hv in Hvisit. injection Hvisit as <- _.
        apply Forall_app. split; [exact Hline|].
        apply Hw in Hwalk. simpl in Hwalk.
        eapply Forall_impl; [|exact Hwalk].
        intros l. unfold startswith. apply prefix_app_l.
      * rewrite Hv in Hvisit. discriminate.
    + destruct (visit_entry_file path prefix (Nat.eqb index (len - 1)) c w
                  lines g Hd) as (g2 & Hv & _).
      rewrite Hv in Hvisit. now injection Hvisit as <- _.
Qed.

(** ** The order in which a directory lists its entries *)





(** ** Walks that complete *)



(** ** Lists of patterns with the same patterns *)

Lemma match_patterns_existsb (rel : string) (patterns : list string) :
  match_patterns rel patterns = existsb (matches rel) patterns.
Proof.
  induction patterns as [|p ps IH]; simpl; [reflexivity|].
  unfold matches at 1.
  destruct (endswith p "/" && startswith rel (drop_last p)); [reflexivity|].
  simpl. destruct (fnmatch rel p); [reflexivity|exact IH].
Qed.

Lemma select_ext {A} (p q : A -> result bool) (l : list A) :
  (forall x, p x = q x) -> select p l = select q l.
Proof.
  intros H. induction l as [|x l IH]; simpl; [reflexivity|].
  now rewrite H, IH.
Qed.

Lemma build_tree_patterns (root : Path) (ps ps' : list string) (n : node) :
  (forall rel, match_patterns rel ps = match_patterns rel ps') ->
  forall path prefix g,
    build_tree n root ps path prefix g = build_tree n root ps' path prefix g.
Proof.
  intros Hsame.
  induction n as [nm d|nm listing children IH|nm|nm t IH] using node_induction;
    intros path prefix g; try reflexivity.
  - cbn [build_tree].
    transitivity (walk_directory path root ps' prefix listing
                    (map (fun e => (e, build_tree e root ps)) children) g).
    + unfold walk_directory, list_entries. destruct listing; [reflexivity|].
      rewrite (select_ext _ (fun ew => keep path root ps' (fst ew))); [reflexivity|].
      intros [e w]. unfold keep, is_ignored. simpl.
      destruct (is_symlink e); [reflexivity|].
      destruct (relative_to _ _); [|reflexivity]. now rewrite Hsame.
    + apply walk_directory_alike.
      induction IH as [|c cs Hc _ IHcs]; simpl; constructor; [|exact IHcs].
      unfold alike; simpl. repeat split; auto.
  - apply IH.
Qed.

(** ** Patterns without wildcards, and patterns that start with a star *)

Lemma translate_from_literal (l : list ascii) :
  forall res,
    forallb (fun c => negb (Ascii.eqb c "*" || Ascii.eqb c "?" || Ascii.eqb c "["))
      l = true ->
    translate_from 0 l res = res ++ map LIT l.
Proof.
  induction l as [|c l IH]; intros res Hl; simpl.
  - now rewrite app_nil_r.
  - simpl in Hl. apply andb_true_iff in Hl as [Hc Hl].
    apply negb_true_iff in Hc. apply orb_false_iff in Hc as [Hc H3].
    apply orb_false_iff in Hc as [H1 H2].
    rewrite H1, H2, H3, IH by exact Hl.
    now rewrite <- app_assoc.
Qed.

Lemma match_tokens_literal (l : list ascii) :
  forall s, match_tokens (map LIT l) s = true <-> s = l.
Proof.
  induction l as [|c l IH]; intros [|x s]; simpl; split; try easy.
  - intros H. apply andb_true_iff in H as [Hx Hs].
    apply Ascii.eqb_eq in Hx. apply IH in Hs. now subst.
  - intros [= -> ->]. rewrite Ascii.eqb_refl. now apply IH.
Qed.

Lemma match_tokens_star_literal (l : list ascii) :
  forall s, match_tokens (STAR :: map LIT l) s = true <->
            exists pre, s = pre ++ l.
Proof.
  intros s. split.
  - induction s as [|x s IH]; rewrite match_tokens_star; intros H;
      apply orb_true_iff in H as [H|H].
    + apply match_tokens_literal in H. now exists [].
    + discriminate.
    + apply match_tokens_literal in H. now exists [].
    + destruct (IH H) as (pre & ->). now exists (x :: pre).
  - intros (pre & ->). induction pre as [|x pre IH]; rewrite match_tokens_star.
    + apply orb_true_iff. left. now apply match_tokens_literal.
    + apply orb_true_iff. right. exact IH.
Qed.

Lemma chars_inj (a b : string) : chars a = chars b -> a = b.
Proof.
  unfold chars. intros H.
  rewrite <- (string_of_list_ascii_of_string a),
          <- (string_of_list_ascii_of_string b).
  now rewrite H.
Qed.

Lemma fnmatch_literal (name_ pattern : string) :
  is_literal pattern = true ->
  fnmatch name_ pattern = String.eqb name_ pattern.
Proof.
  intros Hl. unfold fnmatch, translate.
  rewrite translate_from_literal by exact Hl. cbn [app].
  destruct (String.eqb_spec name_ pattern) as [->|Hne].
  - now apply match_tokens_literal.
  - destruct (match_tokens _ _) eqn:E; [|reflexivity].
    apply match_tokens_literal in E. apply chars_inj in E. contradiction.
Qed.

Lemma fnmatch_star_literal (name_ suffix : string) :
  is_literal suffix = true ->
  fnmatch name_ ("*" ++ suffix) = true <->
  exists pre, name_ = (pre ++ suffix)%string.
Proof.
  intros Hl. unfold fnmatch, translate.
  change (chars ("*" ++ suffix)) with ("*"%char :: chars suffix).
  cbn [translate_from Ascii.eqb Bool.eqb rev app].
  rewrite translate_from_literal by exact Hl. cbn [app].
  rewrite match_tokens_star_literal. split.
  - intros (pre & H). exists (string_of_list_ascii pre).
    apply chars_inj. rewrite chars_app. unfold chars at 2.
    now rewrite list_ascii_of_string_of_list_ascii.
  - intros (pre & ->). exists (chars pre). apply chars_app.
Qed.

(** ** The lines of the ignore file *)

Lemma splitlines_from_no_boundary (text : list N) :
  forall line,
    Forall (fun c => is_line_boundary c = false) line ->
    Forall (Forall (fun c => is_line_boundary c = false))
      (splitlines_from line text).
Proof.
  assert (H : forall n text, List.length text <= n -> forall line,
             Forall (fun c => is_line_boundary c = false) line ->
             Forall (Forall (fun c => is_line_boundary c = false))
               (splitlines_from line text)).
  { induction n as [|n IH]; intros [|c text'] Hlen line Hline;
      try (simpl in Hlen; lia);
      try (simpl; destruct line; [constructor|];
           constructor; [assumption|constructor]).
    cbn [splitlines_from]. simpl in Hlen.
    destruct (is_line_boundary c) eqn:Hc.
    - constructor; [exact Hline|].
      destruct text' as [|c' text'']; [constructor|].
      destruct ((c =? 13)%N && (c' =? 10)%N);
        apply IH; simpl in *; try lia; constructor.
    - apply IH; [lia|]. apply Forall_app. split; [exact Hline|].
      now constructor. }
  intros line. now apply (H (List.length text)).
Qed.

Lemma lstrip_Forall (Q : N -> Prop) (s : list N) :
  Forall Q s -> Forall Q (lstrip s).
Proof.
  induction 1 as [|c s Hc Hs IH]; simpl; [constructor|].
  destruct (is_space c); [exact IH|now constructor].
Qed.

Lemma lstrip_hd (s : list N) (h : N) (t : list N) :
  lstrip s = h :: t -> is_space h = false.
Proof.
  induction s as [|c s IH]; simpl; [discriminate|].
  destruct (is_space c) eqn:Hc; [exact IH|].
  now intros [= <- _].
Qed.

Lemma lstrip_app_nonspace (l l' : list N) (x : N) :
  is_space x = false -> lstrip (l ++ x :: l') = lstrip l ++ x :: l'.
Proof.
  intros Hx. induction l as [|c l IH]; simpl; [now rewrite Hx|].
  destruct (is_space c); [exact IH|reflexivity].
Qed.

(** stripping drops the white space in front, and then the white space
    at the end of what follows the first character left *)
Lemma strip_shape (s : list N) :
  strip s = match lstrip s with
            | [] => []
            | h :: t => h :: rstrip t
            end.
Proof.
  unfold strip, rstrip. destruct (lstrip s) as [|h t] eqn:E; [reflexivity|].
  apply lstrip_hd in E. cbn [rev].
  rewrite lstrip_app_nonspace by exact E. now rewrite rev_unit.
Qed.

Lemma rstrip_last (t : list N) (d : N) :
  rstrip t <> [] -> is_space (last (rstrip t) d) = false.
Proof.
  unfold rstrip. destruct (lstrip (rev t)) as [|h u] eqn:E; [easy|].
  intros _. cbn [rev]. rewrite last_last. now apply lstrip_hd in E.
Qed.

Lemma strip_clean (line : list N) :
  Forall (fun c => is_line_boundary c = false) line ->
  strip line <> [] -> is_comment (strip line) = false ->
  clean (strip line).
Proof.
  intros Hnb Hne Hcomment. unfold clean.
  split; [exact Hne|]. split; [exact Hcomment|].
  assert (Hall : Forall (fun c => is_line_boundary c = false) (strip line)).
  { unfold strip, rstrip. apply Forall_rev, lstrip_Forall, Forall_rev.
    now apply lstrip_Forall. }
  rewrite strip_shape in *.
  destruct (lstrip line) as [|h t] eqn:E; [contradiction|].
  pose proof (lstrip_hd _ _ _ E) as Hh.
  split; [exact Hh|]. split; [|exact Hall].
  destruct (rstrip t) as [|h' t'] eqn:Et; [exact Hh|].
  change (last (h :: h' :: t') 0%N) with (last (h' :: t') 0%N).
  rewrite <- Et. apply rstrip_last. rewrite Et. discriminate.
Qed.

Lemma collect_patterns_clean (lines : list (list N)) :
  Forall (Forall (fun c => is_line_boundary c = false)) lines ->
  Forall clean (collect_patterns lines).
Proof.
  induction 1 as [|line lines Hline _ IH]; simpl; [constructor|].
  destruct (strip line) as [|c s] eqn:E; [exact IH|].
  destruct (is_comment (c :: s)) eqn:Hc; [exact IH|].
  constructor; [|exact IH].
  rewrite <- E in *. apply strip_clean; auto. rewrite E. discriminate.
Qed.

Lemma patterns_of_text_clean (text : list N) :
  Forall clean (collect_patterns (splitlines text)).
Proof.
  apply collect_patterns_clean, splitlines_from_no_boundary. constructor.
Qed.

Lemma collect_patterns_cons (line : list N) (lines : list (list N)) :
  collect_patterns (line :: lines)
  = collect_patterns [line] ++ collect_patterns lines.
Proof.
  simpl. destruct (strip line) as [|c s]; [reflexivity|].
  destruct (is_comment (c :: s)); reflexivity.
Qed.

Lemma last_cons_cons {A} (x y : A) (l : list A) (d : A) :
  last (x :: y :: l) d = last (y :: l) d.
Proof. reflexivity. Qed.

Lemma last_tail (c : N) (t : list N) :
  last (c :: t) 0%N <> 13%N -> last t 0%N <> 13%N.
Proof. destruct t; [easy|now rewrite last_cons_cons]. Qed.

Lemma universal_newlines_app (t1 t2 : list N) :
  last t1 0%N <> 13%N ->
  universal_newlines (t1 ++ 10%N :: t2)
  = universal_newlines t1 ++ 10%N :: universal_newlines t2.
Proof.
  assert (H : forall n t1, List.length t1 <= n -> last t1 0%N <> 13%N ->
             universal_newlines (t1 ++ 10%N :: t2)
             = universal_newlines t1 ++ 10%N :: universal_newlines t2).
  { induction n as [|n IH]; intros [|c t1'] Hlen Hlast;
      try (simpl in Hlen; lia); try reflexivity.
    simpl in Hlen. cbn [app universal_newlines].
    destruct (c =? 13)%N eqn:Hc.
    - destruct t1' as [|c' t1r].
      + apply N.eqb_eq in Hc. simpl in Hlast. contradiction.
      + cbn [app]. apply last_tail in Hlast.
        destruct (c' =? 10)%N eqn:Hc'.
        * cbn [app]. f_equal. apply IH; [simpl in Hlen; lia|].
          now apply last_tail in Hlast.
        * cbn [app]. f_equal.
          apply (IH (c' :: t1r)); [simpl in *; lia|exact Hlast].
    - cbn [app]. f_equal. apply IH; [lia|]. now apply last_tail in Hlast. }
  now apply (H (List.length t1)).
Qed.

Lemma universal_newlines_no_return (text : list N) :
  Forall (fun c => (c =? 13)%N = false) (universal_newlines text).
Proof.
  assert (H : forall n text, List.length text <= n ->
             Forall (fun c => (c =? 13)%N = false) (universal_newlines text)).
  { induction n as [|n IH]; intros [|c text'] Hlen;
      try (simpl in Hlen; lia); try (simpl; constructor).
    simpl in Hlen. cbn [universal_newlines].
    destruct (c =? 13)%N eqn:Hc.
    - constructor; [reflexivity|].
      destruct text' as [|c' text'']; [constructor|].
      destruct (c' =? 10)%N; apply IH; simpl in *; lia.
    - constructor; [exact Hc|]. apply IH. lia. }
  now apply (H (List.length text)).
Qed.

Lemma no_return_last (text : list N) :
  Forall (fun c => (c =? 13)%N = false) text -> last text 0%N <> 13%N.
Proof.
  induction 1 as [|c text Hc Hall IH]; [easy|].
  destruct text as [|c' text']; [|now rewrite last_cons_cons].
  simpl. intros ->. discriminate.
Qed.

Lemma splitlines_from_feed (line u2 : list N) :
  collect_patterns (splitlines_from line (10%N :: u2))
  = collect_patterns (splitlines_from line [])
    ++ collect_patterns (splitlines u2).
Proof.
  cbn [splitlines_from]. change (is_line_boundary 10) with true. cbv iota.
  assert (Hrest : match u2 with
                  | [] => []
                  | c' :: text'' =>
                      if ((10 =? 13)%N && (c' =? 10)%N)%bool
                      then splitlines_from [] text''
                      else splitlines_from [] u2
                  end = splitlines u2) by (now destruct u2).
  rewrite Hrest, collect_patterns_cons.
  destruct line; reflexivity.
Qed.

Lemma collect_splitlines_app (u2 : list N) (u1 : list N) :
  forall line,
    last u1 0%N <> 13%N ->
    collect_patterns (splitlines_from line (u1 ++ 10%N :: u2))
    = collect_patterns (splitlines_from line u1)
      ++ collect_patterns (splitlines u2).
Proof.
  assert (H : forall n u1, List.length u1 <= n -> forall line,
             last u1 0%N <> 13%N ->
             collect_patterns (splitlines_from line (u1 ++ 10%N :: u2))
             = collect_patterns (splitlines_from line u1)
               ++ collect_patterns (splitlines u2)).
  { induction n as [|n IH]; intros [|c u1'] Hlen line Hlast;
      try (simpl in Hlen; lia); try apply splitlines_from_feed.
    simpl in Hlen. cbn [app splitlines_from].
    destruct (is_line_boundary c) eqn:Hc.
    - rewrite collect_patterns_cons,
        (collect_patterns_cons line
           (match u1' with
            | [] => []
            | c' :: text'' =>
                if ((c =? 13)%N && (c' =? 10)%N)%bool
                then splitlines_from [] text''
                else splitlines_from [] u1'
            end)).
      rewrite <- app_assoc. f_equal.
      destruct u1' as [|c' u1r].
      + cbn [app]. assert (Hc13 : (c =? 13)%N = false).
        { destruct (N.eqb_spec c 13); [|reflexivity].
          subst c. simpl in Hlast. contradiction. }
        rewrite Hc13. cbn [andb]. apply (splitlines_from_feed []).
      + cbn [app]. apply last_tail in Hlast.
        destruct ((c =? 13)%N && (c' =? 10)%N).
        * apply IH; [simpl in Hlen; lia|]. now apply last_tail in Hlast.
        * apply (IH (c' :: u1r)); [simpl in *; lia|exact Hlast].
    - apply IH; [lia|]. now apply last_tail in Hlast. }
  intros line. now apply (H (List.length u1)).
Qed.

Lemma clean_strip (p : list N) : clean p -> strip p = p.
Proof.
  intros (Hne & _ & Hhd & Hlast & _). rewrite strip_shape.
  destruct p as [|h t]; [contradiction|]. simpl in Hhd.
  cbn [lstrip]. rewrite Hhd. f_equal.
  destruct t as [|h' t']; [reflexivity|].
  rewrite last_cons_cons in Hlast. unfold rstrip.
  rewrite (app_removelast_last 0%N (l := h' :: t')) at 1 by discriminate.
  rewrite rev_unit. cbn [lstrip]. rewrite Hlast. cbn [rev].
  rewrite rev_involutive. symmetry. apply app_removelast_last. discriminate.
Qed.

Lemma splitlines_from_line (p rest : list N) :
  forall line,
    Forall (fun c => is_line_boundary c = false) p ->
    splitlines_from line (p ++ rest) = splitlines_from (line ++ p) rest.
Proof.
  induction p as [|c p IH]; intros line Hp.
  - now rewrite app_nil_r.
  - inversion Hp as [|? ? Hc Hp']; subst. cbn [app splitlines_from].
    rewrite Hc, IH by exact Hp'. now rewrite <- app_assoc.
Qed.

Lemma universal_newlines_id (text : list N) :
  Forall (fun c => (c =? 13)%N = false) text -> universal_newlines text = text.
Proof.
  induction 1 as [|c text Hc _ IH]; [reflexivity|].
  cbn [universal_newlines]. now rewrite Hc, IH.
Qed.

Lemma no_boundary_no_return (c : N) :
  is_line_boundary c = false -> (c =? 13)%N = false.
Proof.
  intros H. destruct (N.eqb_spec c 13) as [->|]; [discriminate|reflexivity].
Qed.

Lemma join_lines_no_return (ps : list (list N)) :
  Forall clean ps -> Forall (fun c => (c =? 13)%N = false) (join_lines ps).
Proof.
  induction 1 as [|p ps Hp _ IH]; [constructor|].
  assert (Hp' : Forall (fun c => (c =? 13)%N = false) p).
  { destruct Hp as (_ & _ & _ & _ & Hnb).
    eapply Forall_impl; [|exact Hnb]. apply no_boundary_no_return. }
  cbn [join_lines]. destruct ps as [|q ps]; [exact Hp'|].
  apply Forall_app. split; [exact Hp'|]. now constructor.
Qed.

Lemma splitlines_join_lines (ps : list (list N)) :
  Forall clean ps -> splitlines (join_lines ps) = ps.
Proof.
  induction 1 as [|p ps Hp Hps IH]; [reflexivity|].
  destruct Hp as (Hne & _ & _ & _ & Hnb).
  cbn [join_lines]. unfold splitlines in *.
  destruct ps as [|q ps].
  - rewrite <- (app_nil_r p) at 1. rewrite splitlines_from_line by exact Hnb.
    simpl. now destruct p.
  - rewrite splitlines_from_line by exact Hnb. cbn [app splitlines_from].
    change (is_line_boundary 10) with true. cbv iota. f_equal.
    rewrite <- IH at 2.
    now destruct (join_lines (q :: ps)).
Qed.

Lemma collect_patterns_id (ps : list (list N)) :
  Forall clean ps -> collect_patterns ps = ps.
Proof.
  induction 1 as [|p ps Hp _ IH]; [reflexivity|].
  cbn [collect_patterns]. rewrite (clean_strip p Hp), IH.
  destruct Hp as (Hne & Hcomment & _).
  destruct p; [contradiction|]. now rewrite Hcomment.
Qed.

Lemma tally_visited (ignore : list string) (n : node) :
  forall rel, tally (fun _ => 1%Z) 1 ignore rel n = visited ignore rel n.
Proof.
  induction n as [nm d|nm listing children IH|nm|nm t IH] using node_induction;
    intros rel; try reflexivity.
  - destruct listing; [reflexivity|]. cbn [tally visited]. f_equal.
    induction IH as [|c cs Hc _ IHcs]; [reflexivity|].
    cbn [map]. rewrite IHcs. f_equal.
    destruct (kept ignore rel c); [|reflexivity].
    destruct (is_dir c); [|reflexivity]. now rewrite Hc.
  - apply IH.
Qed.

(** ** Further properties *)

(** X1.  After a complete scan that started with the counters at zero,
    [file_count] is the number of entries visited that are not
    directories, [dir_count] the number of directories visited, and
    [line_count] the sum, over the files visited, of their numbers of
    lines (nothing for a file that cannot be read). *)
Theorem scan_metrics (root : Path) (root_node : node) (ignore : list string)
    (g g' : globals) (lines : list string) :
  scan root root_node ignore g = (Ok lines, g') ->
  file_count g = 0%Z -> dir_count g = 0%Z -> line_count g = 0%Z ->
  file_count g' = tally (fun _ => 1%Z) 0 ignore [] root_node /\
  dir_count g' = tally (fun _ => 0%Z) 1 ignore [] root_node /\
  line_count g' = tally lines_of 0 ignore [] root_node.
Proof.
  intros Hscan Hf Hd Hl. apply scan_Ok in Hscan as (sub & Hw & _).
  apply walk_tally in Hw as (Hf' & Hd' & Hl' & _).
  rewrite Hf in Hf'. rewrite Hd in Hd'. rewrite Hl in Hl'.
  now repeat split.
Qed.

(** X2.  A walk that returns gives one line for each entry it counts: the
    number of lines is what it has added to [file_count] and to
    [dir_count]. *)
Theorem one_line_per_entry (n : node) (root rel : Path)
    (ignore : list string) (prefix : string) (g g' : globals)
    (lines : list string) :
  build_tree n root ignore (root ++ rel) prefix g = (Ok lines, g') ->
  Z.of_nat (List.length lines)
  = ((file_count g' - file_count g) + (dir_count g' - dir_count g))%Z.
Proof.
  intros Hrun. pose proof (walk_counts _ _ _ _ _ _ _ _ Hrun) as Hsum.
  apply walk_tally in Hrun as (_ & _ & _ & Hlen).
  rewrite Hlen, tally_visited. lia.
Qed.

(** X3.  In the lines of a directory, the block of the entry in position
    [i] of the sorted entries has the corner connector and the blank
    extension when [i] is the last position, and the tee connector and the
    bar extension otherwise. *)
Theorem last_entry_gets_the_corner (nm : string) (children : list node)
    (root rel : Path) (ignore : list string) (prefix : string)
    (g g' : globals) (lines : list string) :
  build_tree (Dir nm None children) root ignore (root ++ rel) prefix g
  = (Ok lines, g') ->
  exists blocks,
    lines = List.concat blocks /\
    List.length blocks = List.length (entries_of ignore rel children) /\
    forall i e,
      nth_error (entries_of ignore rel children) i = Some e ->
      exists block,
        nth_error blocks i = Some block /\
        block_at root ignore (root ++ rel) prefix
          (Nat.eqb i (List.length (entries_of ignore rel children) - 1))
          e block.
Proof.
  intros Hrun. rewrite build_tree_listed in Hrun.
  apply for_entries_blocks_at in Hrun as (blocks & -> & Hlen & Hnth).
  exists blocks. repeat split; auto.
Qed.

(** X4.  Every line that a walk returns starts with the prefix the walk
    was given. *)
Theorem lines_start_with_prefix (n : node) (root : Path)
    (ignore : list string) (path : Path) (prefix : string) (g g' : globals)
    (lines : list string) :
  build_tree n root ignore path prefix g = (Ok lines, g') ->
  Forall (fun l => startswith l prefix = true) lines.
Proof.
  revert path prefix g g' lines.
  induction n as [nm d|nm listing children IH|nm|nm t IH] using node_induction;
    intros path prefix g g' lines Hrun; try discriminate.
  - cbn [build_tree] in Hrun. unfold walk_directory in Hrun.
    destruct (list_entries _ _ _ _ _) as [entries|e] eqn:Hentries.
    + eapply for_entries_indented; [|exact Hrun|constructor].
      eapply list_entries_Forall; [exact Hentries|].
      clear Hentries Hrun.
      induction IH as [|c cs Hc _ IHcs]; simpl; constructor; auto.
      intros p pre g0 ls g0' Hw. eapply Hc. exact Hw.
    + destruct (is_PermissionError e); [|discriminate].
      injection Hrun as <- _. constructor.
  - eapply IH. exact Hrun.
Qed.

(** X5.  Whatever its outcome, a walk never decreases a counter, and all
    it prints are heartbeat messages, each for a number of files that is a
    positive multiple of 200 and lies between the values of [file_count]
    before and after. *)
Theorem walk_only_moves_forward (n : node) (root : Path)
    (ignore : list string) (path : Path) (prefix : string) (g : globals) :
  progress g (snd (build_tree n root ignore path prefix g)).
Proof. apply steady_build_tree. Qed.

(** X6.  A walk that starts with a [file_count] that is not negative and
    ends with fewer than 200 files prints nothing. *)
Theorem no_heartbeat_below_200 (n : node) (root : Path)
    (ignore : list string) (path : Path) (prefix : string) (g : globals) :
  (0 <= file_count g)%Z ->
  (file_count (snd (build_tree n root ignore path prefix g)) < 200)%Z ->
  console (snd (build_tree n root ignore path prefix g)) = console g.
Proof.
  intros Hlo Hhi.
  destruct (steady_build_tree n root ignore path prefix g)
    as (_ & _ & _ & added & Hconsole & Hbeats).
  rewrite Hconsole. destruct added as [|m added]; [apply app_nil_r|].
  inversion Hbeats as [|? ? (f & d & l & _ & Hpos & Hmod & Hb) _]; subst.
  exfalso.
  assert (Hsmall : (0 < f < 200)%Z) by lia.
  rewrite Z.mod_small in Hmod by lia. lia.
Qed.



(** X9.  Two lists of ignore patterns with the same patterns, in whatever
    order and however often repeated, give the same scan. *)
Theorem pattern_order_is_immaterial (root : Path) (root_node : node)
    (ps ps' : list string) (g : globals) :
  (forall p, In p ps <-> In p ps') ->
  scan root root_node ps g = scan root root_node ps' g.
Proof.
  intros Hsame. unfold scan. apply bind_ext; [|reflexivity].
  apply build_tree_patterns. intros rel.
  rewrite !match_patterns_existsb.
  destruct (existsb (matches rel) ps') eqn:E.
  - apply existsb_exists in E as (p & Hin & Hm).
    apply existsb_exists. exists p. split; [now apply Hsame|exact Hm].
  - destruct (existsb (matches rel) ps) eqn:E'; [|reflexivity].
    apply existsb_exists in E' as (p & Hin & Hm).
    rewrite <- E. symmetry. apply existsb_exists.
    exists p. split; [now apply Hsame|exact Hm].
Qed.

(** X10.  A pattern with no wildcard character and no slash at its end
    ignores exactly the path whose root-relative path is the pattern
    itself. *)
Theorem literal_pattern_matches_itself (pattern : string)
    (path root relp : Path) :
  is_literal pattern = true ->
  endswith pattern "/" = false ->
  relative_to path root = Ok relp ->
  is_ignored path [pattern] root = Ok (String.eqb (as_posix relp) pattern).
Proof.
  intros Hl He Hrel. unfold is_ignored. rewrite Hrel. f_equal.
  cbn [match_patterns]. rewrite He. cbn [andb].
  rewrite fnmatch_literal by exact Hl.
  now destruct (String.eqb (as_posix relp) pattern).
Qed.

(** X11.  A pattern made of a star and a text with no wildcard character
    (and no slash at its end) ignores exactly the paths whose
    root-relative path ends with that text, at whatever depth. *)
Theorem star_pattern_matches_suffix (suffix : string)
    (path root relp : Path) :
  is_literal suffix = true ->
  endswith ("*" ++ suffix) "/" = false ->
  relative_to path root = Ok relp ->
  is_ignored path [("*" ++ suffix)%string] root = Ok true <->
  exists pre, as_posix relp = (pre ++ suffix)%string.
Proof.
  intros Hl He Hrel. unfold is_ignored. rewrite Hrel.
  cbn [match_patterns]. rewrite He. cbn [andb].
  rewrite <- (fnmatch_star_literal (as_posix relp) suffix Hl).
  destruct (fnmatch (as_posix relp) ("*" ++ suffix)); split; congruence.
Qed.

(** X12.  Every pattern that [load_ignore_patterns] returns is the
    encoding of a line that is not empty, does not start with the comment
    sign, has no white space at either end and no line end inside. *)
Theorem loaded_patterns_are_clean (ignore_file : option node)
    (patterns : list string) :
  load_ignore_patterns ignore_file = Ok patterns ->
  exists lines, patterns = map encode_text lines /\ Forall clean lines.
Proof.
  unfold load_ignore_patterns.
  destruct (negb (exists_ ignore_file)).
  - intros [= <-]. exists []. split; [reflexivity|constructor].
  - destruct ignore_file as [f|].
    + destruct (read_text f) as [text|e]; [|discriminate].
      intros [= <-]. eexists. split; [reflexivity|].
      apply patterns_of_text_clean.
    + intros [= <-]. exists []. split; [reflexivity|constructor].
Qed.

(** X13.  The patterns of two texts put one after the other with a line
    feed between them are the patterns of the first followed by those of
    the second, provided the first does not end with a carriage return. *)
Theorem patterns_of_text_app (t1 t2 : list N) :
  last t1 0%N <> 13%N ->
  patterns_of_text (t1 ++ 10%N :: t2)
  = patterns_of_text t1 ++ patterns_of_text t2.
Proof.
  intros Hlast. unfold patterns_of_text, splitlines.
  rewrite universal_newlines_app by exact Hlast.
  apply collect_splitlines_app.
  apply no_return_last, universal_newlines_no_return.
Qed.

(** X14.  Loading is idempotent: the text made of the loaded patterns,
    one on each line, loads to the same patterns. *)
Theorem patterns_round_trip (text : list N) :
  patterns_of_text (join_lines (patterns_of_text text))
  = patterns_of_text text.
Proof.
  assert (Hclean : Forall clean (patterns_of_text text))
    by apply patterns_of_text_clean.
  unfold patterns_of_text at 1.
  rewrite universal_newlines_id by (now apply join_lines_no_return).
  rewrite splitlines_join_lines by exact Hclean.
  now apply collect_patterns_id.
Qed.

(** X15.  A file that can be read adds to [line_count] a number between
    zero and its size in bytes. *)
Theorem file_lines_bounded (nm : string) (content : list byte) :
  (0 <= lines_of (File nm (Bytes content))
   <= Z.of_nat (List.length content))%Z.
Proof. unfold lines_of. simpl. apply count_lines_bounds. Qed.



End Scanner.

(** ** Worked examples *)

(** C1, the claim as first stated fails: with the one pattern [*.log], the
    nested file [build/output.log] is ignored. *)
Lemma nested_log_is_ignored :
  relative_to (project ++ ["build"; "output.log"]) project
  = Ok ["build"; "output.log"] /\
  as_posix ["build"; "output.log"] = "build/output.log" /\
  is_ignored simple_charset (project ++ ["build"; "output.log"]) ["*.log"]
    project <> Ok false.
Proof. repeat split; try reflexivity. vm_compute. discriminate. Qed.

Lemma star_crosses_separators_witness :
  In "*.log" ["*.tmp"; "*.log"] /\
  relative_to (project ++ ["build"; "output.log"]) project
  = Ok ["build"; "output.log"] /\
  as_posix ["build"; "output.log"] = "build/output.log" /\
  is_ignored simple_charset (project ++ ["build"; "output.log"])
    ["*.tmp"; "*.log"] project = Ok true.
Proof.
  assert (H1 : In "*.log" ["*.tmp"; "*.log"]) by (simpl; auto).
  assert (H2 : relative_to (project ++ ["build"; "output.log"]) project
               = Ok ["build"; "output.log"]) by reflexivity.
  assert (H3 : as_posix ["build"; "output.log"] = "build/output.log")
    by reflexivity.
  split; [exact H1|]. split; [exact H2|]. split; [exact H3|].
  exact (star_crosses_separators simple_charset _ _ _ _ H1 H2 H3).
Defined.

(** C2, the claim as first stated fails: a file of bytes that do not
    decode as UTF-8 is counted as one file, and its two line feeds as two
    lines. *)
Lemma undecodable_file_counts_lines :
  utf8_valid binary_blob = false /\
  scan simple_charset ascii_lower project blob_tree [] initial
  = (Ok ["project"; "└── blob.bin"], mkGlobals 1 0 2 []) /\
  line_count (snd (scan simple_charset ascii_lower project blob_tree [] initial))
  <> (line_count initial + 0)%Z.
Proof. repeat split; try reflexivity; vm_compute; discriminate. Qed.

Lemma unreadable_file_counts_no_lines_witness :
  is_dir (File "locked" (Unreadable PermissionError)) = false /\
  exists g',
    for_entries project "" 2 0
      [(File "locked" (Unreadable PermissionError), fun _ _ => ret []);
       (File "z.txt" (Bytes three_lines), fun _ _ => ret [])] [] initial
    = for_entries project "" 2 1
        [(File "z.txt" (Bytes three_lines), fun _ _ => ret [])]
        ([] ++ [("" ++ connector_of (Nat.eqb 0 (2 - 1)) ++
                 name (File "locked" (Unreadable PermissionError)))%string]) g' /\
    file_count g' = (file_count initial + 1)%Z /\
    dir_count g' = dir_count initial /\
    (forall e, read_line_count (File "locked" (Unreadable PermissionError))
               = Raise e -> line_count g' = line_count initial) /\
    (forall nm content,
        File "locked" (Unreadable PermissionError) = File nm (Bytes content) ->
        line_count g' = (line_count initial + count_lines content)%Z).
Proof.
  split; [reflexivity|].
  exact (unreadable_file_counts_no_lines project "" 2 0
           (File "locked" (Unreadable PermissionError)) (fun _ _ => ret [])
           [(File "z.txt" (Bytes three_lines), fun _ _ => ret [])] [] initial
           eq_refl).
Defined.

Lemma scan_deterministic_witness :
  file_count initial = 0%Z /\ dir_count initial = 0%Z /\
  line_count initial = 0%Z /\
  file_count (mkGlobals 0 0 0 [Starting 1 project]) = 0%Z /\
  dir_count (mkGlobals 0 0 0 [Starting 1 project]) = 0%Z /\
  line_count (mkGlobals 0 0 0 [Starting 1 project]) = 0%Z /\
  fst (scan simple_charset ascii_lower project mixed_tree ["build/"] initial)
  = fst (scan simple_charset ascii_lower project mixed_tree ["build/"]
           (mkGlobals 0 0 0 [Starting 1 project])) /\
  file_count (snd (scan simple_charset ascii_lower project mixed_tree ["build/"] initial))
  = file_count (snd (scan simple_charset ascii_lower project mixed_tree ["build/"]
                       (mkGlobals 0 0 0 [Starting 1 project]))) /\
  dir_count (snd (scan simple_charset ascii_lower project mixed_tree ["build/"] initial))
  = dir_count (snd (scan simple_charset ascii_lower project mixed_tree ["build/"]
                      (mkGlobals 0 0 0 [Starting 1 project]))) /\
  line_count (snd (scan simple_charset ascii_lower project mixed_tree ["build/"] initial))
  = line_count (snd (scan simple_charset ascii_lower project mixed_tree ["build/"]
                       (mkGlobals 0 0 0 [Starting 1 project]))).
Proof.
  do 6 (split; [reflexivity|]).
  exact (scan_deterministic simple_charset ascii_lower project mixed_tree ["build/"]
           initial (mkGlobals 0 0 0 [Starting 1 project])
           eq_refl eq_refl eq_refl eq_refl eq_refl eq_refl).
Defined.



Lemma directory_pattern_excludes_subtree_witness :
  In "build/" ["*.tmp"; "build/"] /\
  endswith "build/" "/" = true /\
  scan simple_charset ascii_lower project
    (without (String.eqb (drop_last "build/")) [] mixed_tree)
    ["*.tmp"; "build/"] initial
  = scan simple_charset ascii_lower project mixed_tree ["*.tmp"; "build/"] initial.
Proof.
  assert (H1 : In "build/" ["*.tmp"; "build/"]) by (simpl; auto).
  split; [exact H1|]. split; [reflexivity|].
  exact (directory_pattern_excludes_subtree simple_charset ascii_lower "build/"
           ["*.tmp"; "build/"] project mixed_tree initial H1 eq_refl).
Defined.

Lemma directory_pattern_is_prefix_test_witness :
  endswith "build/" "/" = true /\
  relative_to (project ++ ["builder.py"]) project = Ok ["builder.py"] /\
  forallb is_name ["builder.py"] = true /\
  is_ignored simple_charset (project ++ ["builder.py"]) ["build/"] project
  = Ok (startswith (as_posix ["builder.py"]) (drop_last "build/")).
Proof.
  do 3 (split; [reflexivity|]).
  exact (directory_pattern_is_prefix_test simple_charset "build/"
           (project ++ ["builder.py"]) project ["builder.py"]
           eq_refl eq_refl eq_refl).
Defined.


(** Names outside ASCII: [str.lower] folds [É] to [é], so [éa] comes
    before [Éb]. *)
Example accented_names_fold_case :
  build_tree simple_charset latin1_lower
    (Dir "fruit" None
       [File "Éb" (Bytes three_lines); File "éa" (Bytes three_lines)])
    project [] (project ++ ["fruit"]) "" initial
  = (Ok ["├── éa"; "└── Éb"], mkGlobals 2 0 6 []).
Proof. reflexivity. Qed.

Lemma other_listing_errors_abort_witness :
  is_PermissionError FileNotFoundError = false /\
  build_tree simple_charset ascii_lower (Dir "gone" (Some FileNotFoundError) [])
    (cwd (mkRun project vanishing_tree [] "2026-01-01_00-00-00"
            "2026-01-01T00:00:00" "0.01" None))
    (ignore_patterns (mkRun project vanishing_tree [] "2026-01-01_00-00-00"
                        "2026-01-01T00:00:00" "0.01" None))
    (project ++ ["gone"]) "" initial
  = (Raise FileNotFoundError, initial) /\
  listing_fails simple_charset
    (ignore_patterns (mkRun project vanishing_tree [] "2026-01-01_00-00-00"
                        "2026-01-01T00:00:00" "0.01" None)) []
    (cwd_node (mkRun project vanishing_tree [] "2026-01-01_00-00-00"
                 "2026-01-01T00:00:00" "0.01" None)) = true /\
  exists e' g',
    main simple_charset ascii_lower
      (mkRun project vanishing_tree [] "2026-01-01_00-00-00"
         "2026-01-01T00:00:00" "0.01" None) initial = (Raise e', g') /\
    is_PermissionError e' = false.
Proof.
  split; [reflexivity|]. split; [|split; [reflexivity|]].
  - exact (proj1 (other_listing_errors_abort simple_charset ascii_lower
                    (mkRun project vanishing_tree [] "2026-01-01_00-00-00"
                       "2026-01-01T00:00:00" "0.01" None)
                    initial initial "gone" FileNotFoundError []
                    (project ++ ["gone"]) "" eq_refl)).
  - exact (proj2 (other_listing_errors_abort simple_charset ascii_lower
                    (mkRun project vanishing_tree [] "2026-01-01_00-00-00"
                       "2026-01-01T00:00:00" "0.01" None)
                    initial initial "gone" FileNotFoundError []
                    (project ++ ["gone"]) "" eq_refl) eq_refl).
Defined.

(** ** Worked examples of the further properties *)

Lemma scan_metrics_witness :
  scan simple_charset ascii_lower project mixed_tree ["build/"] initial
  = (Ok ["project"; "├── apple"; "├── Banana"; "└── locked"],
     mkGlobals 3 0 8 []) /\
  file_count initial = 0%Z /\ dir_count initial = 0%Z /\
  line_count initial = 0%Z /\
  file_count (mkGlobals 3 0 8 [])
  = tally simple_charset (fun _ => 1%Z) 0 ["build/"] [] mixed_tree /\
  dir_count (mkGlobals 3 0 8 [])
  = tally simple_charset (fun _ => 0%Z) 1 ["build/"] [] mixed_tree /\
  line_count (mkGlobals 3 0 8 [])
  = tally simple_charset lines_of 0 ["build/"] [] mixed_tree.
Proof.
  assert (H : scan simple_charset ascii_lower project mixed_tree ["build/"] initial
              = (Ok ["project"; "├── apple"; "├── Banana"; "└── locked"],
                 mkGlobals 3 0 8 [])) by reflexivity.
  split; [exact H|]. do 3 (split; [reflexivity|]).
  exact (scan_metrics simple_charset ascii_lower project mixed_tree ["build/"] initial
           _ _ H eq_refl eq_refl eq_refl).
Defined.

Lemma one_line_per_entry_witness :
  build_tree simple_charset ascii_lower small_tree project [] (project ++ []) "" initial
  = (Ok ["├── sub"; "│   └── b.txt"; "└── a.txt"], mkGlobals 2 1 8 []) /\
  Z.of_nat (List.length ["├── sub"; "│   └── b.txt"; "└── a.txt"])
  = ((file_count (mkGlobals 2 1 8 []) - file_count initial)
     + (dir_count (mkGlobals 2 1 8 []) - dir_count initial))%Z.
Proof.
  assert (H : build_tree simple_charset ascii_lower small_tree project []
                (project ++ []) "" initial
              = (Ok ["├── sub"; "│   └── b.txt"; "└── a.txt"],
                 mkGlobals 2 1 8 [])) by reflexivity.
  split; [exact H|].
  exact (one_line_per_entry simple_charset ascii_lower small_tree project [] [] ""
           initial _ _ H).
Defined.

Lemma last_entry_gets_the_corner_witness :
  build_tree simple_charset ascii_lower
    (Dir "project" None
       [File "a.txt" (Bytes three_lines);
        Dir "sub" None [File "b.txt" (Bytes five_lines)]])
    project [] (project ++ []) "" initial
  = (Ok ["├── sub"; "│   └── b.txt"; "└── a.txt"], mkGlobals 2 1 8 []) /\
  exists blocks,
    ["├── sub"; "│   └── b.txt"; "└── a.txt"] = List.concat blocks /\
    List.length blocks
    = List.length
        (entries_of simple_charset ascii_lower [] []
           [File "a.txt" (Bytes three_lines);
            Dir "sub" None [File "b.txt" (Bytes five_lines)]]) /\
    forall i e,
      nth_error
        (entries_of simple_charset ascii_lower [] []
           [File "a.txt" (Bytes three_lines);
            Dir "sub" None [File "b.txt" (Bytes five_lines)]]) i = Some e ->
      exists block,
        nth_error blocks i = Some block /\
        block_at simple_charset ascii_lower project [] (project ++ []) ""
          (Nat.eqb i
             (List.length
                (entries_of simple_charset ascii_lower [] []
                   [File "a.txt" (Bytes three_lines);
                    Dir "sub" None [File "b.txt" (Bytes five_lines)]]) - 1))
          e block.
Proof.
  assert (H : build_tree simple_charset ascii_lower
                (Dir "project" None
                   [File "a.txt" (Bytes three_lines);
                    Dir "sub" None [File "b.txt" (Bytes five_lines)]])
                project [] (project ++ []) "" initial
              = (Ok ["├── sub"; "│   └── b.txt"; "└── a.txt"],
                 mkGlobals 2 1 8 [])) by reflexivity.
  split; [exact H|].
  exact (last_entry_gets_the_corner simple_charset ascii_lower "project" _ project [] []
           "" initial _ _ H).
Defined.

Lemma lines_start_with_prefix_witness :
  build_tree simple_charset ascii_lower small_tree project [] project "│   " initial
  = (Ok ["│   ├── sub"; "│   │   └── b.txt"; "│   └── a.txt"],
     mkGlobals 2 1 8 []) /\
  Forall (fun l => startswith l "│   " = true)
    ["│   ├── sub"; "│   │   └── b.txt"; "│   └── a.txt"].
Proof.
  assert (H : build_tree simple_charset ascii_lower small_tree project [] project
                "│   " initial
              = (Ok ["│   ├── sub"; "│   │   └── b.txt"; "│   └── a.txt"],
                 mkGlobals 2 1 8 [])) by reflexivity.
  split; [exact H|].
  exact (lines_start_with_prefix simple_charset ascii_lower small_tree project [] project
           "│   " initial _ _ H).
Defined.

Lemma no_heartbeat_below_200_witness :
  (0 <= file_count (mkGlobals 150 7 0 [Starting 0 project]))%Z /\
  (file_count
     (snd (build_tree simple_charset ascii_lower small_tree project [] project ""
             (mkGlobals 150 7 0 [Starting 0 project]))) < 200)%Z /\
  console
    (snd (build_tree simple_charset ascii_lower small_tree project [] project ""
            (mkGlobals 150 7 0 [Starting 0 project])))
  = console (mkGlobals 150 7 0 [Starting 0 project]).
Proof.
  assert (H1 : (0 <= file_count (mkGlobals 150 7 0 [Starting 0 project]))%Z)
    by (simpl; lia).
  assert (H2 : (file_count
                  (snd (build_tree simple_charset ascii_lower small_tree project []
                          project "" (mkGlobals 150 7 0 [Starting 0 project])))
                < 200)%Z) by reflexivity.
  split; [exact H1|]. split; [exact H2|].
  exact (no_heartbeat_below_200 simple_charset ascii_lower small_tree project [] project
           "" _ H1 H2).
Defined.



Lemma pattern_order_is_immaterial_witness :
  (forall p, In p ["build/"; "*.log"] <-> In p ["*.log"; "build/"; "*.log"]) /\
  scan simple_charset ascii_lower project mixed_tree ["build/"; "*.log"] initial
  = scan simple_charset ascii_lower project mixed_tree ["*.log"; "build/"; "*.log"]
      initial.
Proof.
  assert (H : forall p, In p ["build/"; "*.log"]
                        <-> In p ["*.log"; "build/"; "*.log"])
    by (intros p; simpl; tauto).
  split; [exact H|].
  exact (pattern_order_is_immaterial simple_charset ascii_lower project mixed_tree _ _
           initial H).
Defined.

Lemma literal_pattern_matches_itself_witness :
  is_literal "Banana" = true /\
  endswith "Banana" "/" = false /\
  relative_to (project ++ ["sub"; "Banana"]) project = Ok ["sub"; "Banana"] /\
  is_ignored simple_charset (project ++ ["sub"; "Banana"]) ["Banana"] project
  = Ok (String.eqb (as_posix ["sub"; "Banana"]) "Banana").
Proof.
  do 3 (split; [reflexivity|]).
  exact (literal_pattern_matches_itself simple_charset "Banana"
           (project ++ ["sub"; "Banana"]) project ["sub"; "Banana"]
           eq_refl eq_refl eq_refl).
Defined.

Lemma star_pattern_matches_suffix_witness :
  is_literal ".log" = true /\
  endswith ("*" ++ ".log") "/" = false /\
  relative_to (project ++ ["build"; "output.log"]) project
  = Ok ["build"; "output.log"] /\
  (is_ignored simple_charset (project ++ ["build"; "output.log"])
     [("*" ++ ".log")%string] project = Ok true <->
   exists pre, as_posix ["build"; "output.log"] = (pre ++ ".log")%string).
Proof.
  do 3 (split; [reflexivity|]).
  exact (star_pattern_matches_suffix simple_charset ".log"
           (project ++ ["build"; "output.log"]) project
           ["build"; "output.log"] eq_refl eq_refl eq_refl).
Defined.

(** the ignore file that reads [# comment], an empty line, and [*.tmp]
    loads to the one pattern [*.tmp] *)
Lemma loaded_patterns_are_clean_witness :
  load_ignore_patterns (Some (File "tree_ignore.txt" (Bytes ignore_bytes)))
  = Ok ["*.tmp"] /\
  exists lines, ["*.tmp"] = map encode_text lines /\ Forall clean lines.
Proof.
  assert (H : load_ignore_patterns
                (Some (File "tree_ignore.txt" (Bytes ignore_bytes)))
              = Ok ["*.tmp"]) by reflexivity.
  split; [exact H|].
  exact (loaded_patterns_are_clean _ _ H).
Defined.

Lemma patterns_of_text_app_witness :
  last (code_points "build/") 0%N <> 13%N /\
  patterns_of_text (code_points "build/" ++ 10%N :: code_points "*.log")
  = patterns_of_text (code_points "build/")
    ++ patterns_of_text (code_points "*.log").
Proof.
  assert (H : last (code_points "build/") 0%N <> 13%N)
    by (vm_compute; discriminate).
  split; [exact H|].
  exact (patterns_of_text_app (code_points "build/") (code_points "*.log") H).
Defined.

